(** * SupaFund trader: decision-maker and market-manager skills

    A shallow embedding of the replicated decision engine of the trader
    (round transition table, prediction round, bet sampling, bet registry
    update, the [supafund_trader] strategy entry point) together with the
    properties the specification states about them.

    Conventions of the embedding:
    - Python [int] is [Z]; floor division [//] is [Z.div] (the divisor is a
      positive constant wherever it is used);
    - finite Python [float] values are rationals and their comparisons
      (sort keys, [==], [!=], [<=], [>]) agree with those of the
      rationals, so they are embedded as canonical rationals [Qc], on
      which [==] is Leibniz equality (NaN is outside the model); binary
      floating-point arithmetic is not computed: where the code subtracts
      or multiplies floats, the operation is a parameter of the
      embedding, with an outcome that may be an exception;
    - calls into third-party libraries (the Supabase and OpenAI client
      constructors) and into the consensus framework are parameters as
      well, each with an outcome that may be an exception;
    - [str] is [string]; a [dict] with string keys is a [gmap string _]
      when only lookups matter and an association list in insertion order
      when iteration order matters;
    - a Python exception leaving a function is a constructor of its result
      type. *)

From Stdlib Require Import ZArith QArith Qcanon Bool List Permutation Lia Ascii.
From stdpp Require Import gmap strings.
Import ListNotations.

Local Open Scope Z_scope.

(** ** Python prelude: exceptions, dynamic values, list built-ins *)

Module Py.

Inductive exn : Type :=
| ValueError
| TypeError
| IndexError
| AttributeError
| OverflowError
| LibraryError (name : string).

(** The outcome of a call: a returned value or a raised exception. *)
Inductive result (A : Type) : Type :=
| Ok (a : A)
| Raise (e : exn).
Arguments Ok {A} a.
Arguments Raise {A} e.

(** Sequencing: an exception raised by the first call leaves the whole
    block. *)
Definition bind {A B : Type} (c : result A) (k : A -> result B) : result B :=
  match c with
  | Ok a => k a
  | Raise e => Raise e
  end.

Notation "'let?' x := c 'in' k" := (bind c (fun x => k))
  (at level 10, x name, c at level 100, k at level 200).

(** The dynamically typed values that appear as payload fields and as
    strategy keyword arguments. *)
Inductive value : Type :=
| VNone
| VBool (b : bool)
| VInt (z : Z)
| VFloat (q : Qc)
| VStr (s : string).

#[global] Instance value_eq_dec : EqDecision value.
Proof. solve_decision. Defined.

(** A value used as a number; [None] when arithmetic on it raises
    [TypeError]. *)
Definition number (v : value) : option Qc :=
  match v with
  | VInt z => Some (Qc_of_Z z)
  | VFloat q => Some q
  | VBool b => Some (Qc_of_Z (if b then 1 else 0))
  | VNone | VStr _ => None
  end.

(** A value that is an [int] ([bool] is a subclass of [int]). *)
Definition as_int (v : value) : option Z :=
  match v with
  | VInt z => Some z
  | VBool b => Some (if b then 1 else 0)
  | VNone | VFloat _ | VStr _ => None
  end.

Definition Zltb (x y : Z) : bool := bool_decide (x < y)%Z.
Definition Qcltb (x y : Qc) : bool := bool_decide (x < y)%Qc.

(** [<] on tuples: the first position where the two tuples differ (by
    [==]) decides. Longer tuples are nested pairs. *)
Definition tuple_lt {A B : Type} `{EqDecision A}
    (ltA : A -> A -> bool) (ltB : B -> B -> bool) (x y : A * B) : bool :=
  if decide (fst x = fst y) then ltB (snd x) (snd y) else ltA (fst x) (fst y).

(** What sorting assumes of [<] on keys: a strict total order. *)
Record strict_total {K : Type} (ltb : K -> K -> bool) : Prop := {
  lt_irrefl : forall x, ltb x x = false;
  lt_trans : forall x y z, ltb x y = true -> ltb y z = true -> ltb x z = true;
  lt_total : forall x y, ltb x y = true \/ x = y \/ ltb y x = true
}.

(** [min(l)] on a list of ints; [ValueError] on the empty list. *)
Fixpoint min_list (l : list Z) : result Z :=
  match l with
  | [] => Raise ValueError
  | x :: r =>
      match r with
      | [] => Ok x
      | _ => let? m := min_list r in Ok (if bool_decide (m < x)%Z then m else x)
      end
  end.

(** [max(it, key=f)]: the first item whose key is not exceeded by a later
    one; [ValueError] on an empty iterable. *)
Fixpoint max_from {A : Type} (f : A -> Z) (best : A) (l : list A) : A :=
  match l with
  | [] => best
  | x :: r => max_from f (if bool_decide (f best < f x)%Z then x else best) r
  end.

Definition max_key {A : Type} (f : A -> Z) (l : list A) : result A :=
  match l with
  | [] => Raise ValueError
  | x :: r => Ok (max_from f x r)
  end.

(** [l.index(x)]: the first position holding a value equal to [x];
    [ValueError] when there is none. *)
Fixpoint index {A : Type} `{EqDecision A} (x : A) (l : list A) : result nat :=
  match l with
  | [] => Raise ValueError
  | y :: r => if decide (y = x) then Ok 0%nat else let? i := index x r in Ok (S i)
  end.

(** [l.sort(key=key, reverse=True)]: the stable sort into descending key
    order; items with equal keys keep their original relative order. *)
Section Sort.
Context {A K : Type} (ltb : K -> K -> bool) (key : A -> K).

Fixpoint insert_reverse (x : A) (s : list A) : list A :=
  match s with
  | [] => [x]
  | y :: r =>
      if ltb (key x) (key y) then y :: insert_reverse x r else x :: y :: r
  end.

Fixpoint sort_reverse (l : list A) : list A :=
  match l with
  | [] => []
  | x :: r => insert_reverse x (sort_reverse r)
  end.
End Sort.

(** [l[i]] *)
Definition getitem {A : Type} (l : list A) (i : nat) : result A :=
  match l !! i with
  | Some a => Ok a
  | None => Raise IndexError
  end.

End Py.

(** ** decision_maker_abci/rounds.py *)

Module Rounds.

(** [class Event(Enum)] *)
Inductive Event : Type :=
| DONE
| NONE
| NO_MAJORITY
| ROUND_TIMEOUT
| UNPROFITABLE
| FETCH_ERROR
| TIE
| MECH_RESPONSE_ERROR
| INSUFFICIENT_BALANCE
| SLOTS_UNSUPPORTED_ERROR
| NO_REDEEMING
| REDEEM_ROUND_TIMEOUT
| MOCK_TX
| MOCK_MECH_REQUEST
| BLACKLIST
| NO_OP
| CALC_BUY_AMOUNT_FAILED
| BENCHMARKING_ENABLED
| BENCHMARKING_DISABLED
| BENCHMARKING_FINISHED
| NEW_SIMULATED_RESAMPLE
| NO_SUBSCRIPTION
| SUBSCRIPTION_ERROR.

(** [Event.<name>.value] *)
Definition value (e : Event) : string :=
  match e with
  | DONE => "done"
  | NONE => "none"
  | NO_MAJORITY => "no_majority"
  | ROUND_TIMEOUT => "round_timeout"
  | UNPROFITABLE => "unprofitable"
  | FETCH_ERROR => "fetch_error"
  | TIE => "tie"
  | MECH_RESPONSE_ERROR => "mech_response_error"
  | INSUFFICIENT_BALANCE => "insufficient_balance"
  | SLOTS_UNSUPPORTED_ERROR => "slots_unsupported_error"
  | NO_REDEEMING => "no_redeeming"
  | REDEEM_ROUND_TIMEOUT => "redeem_round_timeout"
  | MOCK_TX => "mock_tx"
  | MOCK_MECH_REQUEST => "mock_mech_request"
  | BLACKLIST => "blacklist"
  | NO_OP => "no_op"
  | CALC_BUY_AMOUNT_FAILED => "calc_buy_amount_failed"
  | BENCHMARKING_ENABLED => "benchmarking_enabled"
  | BENCHMARKING_DISABLED => "benchmarking_disabled"
  | BENCHMARKING_FINISHED => "benchmarking_finished"
  | NEW_SIMULATED_RESAMPLE => "new_simulated_resample"
  | NO_SUBSCRIPTION => "no_subscription"
  | SUBSCRIPTION_ERROR => "subscription_error"
  end.

(** The round classes named by [DecisionMakerAbciApp]: the eleven
    transition states followed by the eight final states. *)
Inductive Round : Type :=
| ClaimRound
| HandleFailedTxRound
| RandomnessRound
| BenchmarkingRandomnessRound
| SubscriptionRound
| SamplingRound
| PredictionRound
| BetPlacementRound
| RedeemRound
| BlacklistingRound
| CheckBenchmarkingModeRound
| FinishedDecisionMakerRound
| FinishedWithoutDecisionRound
| ImpossibleRound
| BenchmarkingDoneRound
| BenchmarkingModeDisabledRound
| FinishedWithoutRedeemingRound
| RefillRequiredRound
| FinishedSubscriptionRound.

Definition initial_round_cls : Round := CheckBenchmarkingModeRound.

(** [transition_function]: the dict of dicts, read as a partial function;
    [None] is a missing key. *)
Definition transition_function (r : Round) (e : Event) : option Round :=
  match r with
  | ClaimRound =>
      match e with
      | DONE => Some SamplingRound
      | NO_MAJORITY => Some ClaimRound
      | ROUND_TIMEOUT => Some ClaimRound
      | SUBSCRIPTION_ERROR => Some ClaimRound
      | _ => None
      end
  | HandleFailedTxRound =>
      match e with
      | NO_OP => Some RedeemRound
      | BLACKLIST => Some BlacklistingRound
      | NO_MAJORITY => Some HandleFailedTxRound
      | _ => None
      end
  | RandomnessRound =>
      match e with
      | DONE => Some SamplingRound
      | ROUND_TIMEOUT => Some RandomnessRound
      | NO_MAJORITY => Some RandomnessRound
      | NONE => Some ImpossibleRound
      | _ => None
      end
  | BenchmarkingRandomnessRound =>
      match e with
      | DONE => Some SamplingRound
      | ROUND_TIMEOUT => Some BenchmarkingRandomnessRound
      | NO_MAJORITY => Some BenchmarkingRandomnessRound
      | NONE => Some ImpossibleRound
      | _ => None
      end
  | SubscriptionRound =>
      match e with
      | DONE => Some FinishedSubscriptionRound
      | NO_SUBSCRIPTION => Some SamplingRound
      | SUBSCRIPTION_ERROR => Some SubscriptionRound
      | NO_MAJORITY => Some SubscriptionRound
      | ROUND_TIMEOUT => Some SubscriptionRound
      | NONE => Some SubscriptionRound
      | MOCK_TX => Some SamplingRound
      | _ => None
      end
  | SamplingRound =>
      match e with
      | DONE => Some SubscriptionRound
      | BENCHMARKING_ENABLED => Some PredictionRound
      | NONE => Some FinishedWithoutDecisionRound
      | FETCH_ERROR => Some ImpossibleRound
      | NO_MAJORITY => Some SamplingRound
      | ROUND_TIMEOUT => Some SamplingRound
      | BENCHMARKING_FINISHED => Some BenchmarkingDoneRound
      | NEW_SIMULATED_RESAMPLE => Some SamplingRound
      | _ => None
      end
  | PredictionRound =>
      match e with
      | DONE => Some BetPlacementRound
      | UNPROFITABLE => Some BlacklistingRound
      | ROUND_TIMEOUT => Some PredictionRound
      | NO_MAJORITY => Some PredictionRound
      | _ => None
      end
  | BetPlacementRound =>
      match e with
      | DONE => Some FinishedDecisionMakerRound
      | INSUFFICIENT_BALANCE => Some RefillRequiredRound
      | NO_MAJORITY => Some BetPlacementRound
      | ROUND_TIMEOUT => Some BetPlacementRound
      | NONE => Some ImpossibleRound
      | MOCK_TX => Some RedeemRound
      | CALC_BUY_AMOUNT_FAILED => Some HandleFailedTxRound
      | _ => None
      end
  | RedeemRound =>
      match e with
      | DONE => Some FinishedDecisionMakerRound
      | NO_REDEEMING => Some FinishedWithoutRedeemingRound
      | REDEEM_ROUND_TIMEOUT => Some FinishedWithoutRedeemingRound
      | NO_MAJORITY => Some RedeemRound
      | NONE => Some ImpossibleRound
      | MOCK_TX => Some SamplingRound
      | _ => None
      end
  | BlacklistingRound =>
      match e with
      | DONE => Some FinishedWithoutDecisionRound
      | NO_MAJORITY => Some BlacklistingRound
      | ROUND_TIMEOUT => Some BlacklistingRound
      | NONE => Some ImpossibleRound
      | FETCH_ERROR => Some ImpossibleRound
      | MOCK_TX => Some FinishedWithoutDecisionRound
      | _ => None
      end
  | CheckBenchmarkingModeRound =>
      match e with
      | BENCHMARKING_ENABLED => Some BenchmarkingRandomnessRound
      | BENCHMARKING_DISABLED => Some BenchmarkingModeDisabledRound
      | SUBSCRIPTION_ERROR => Some ImpossibleRound
      | NO_MAJORITY => Some CheckBenchmarkingModeRound
      | ROUND_TIMEOUT => Some CheckBenchmarkingModeRound
      | NONE => Some ImpossibleRound
      | DONE => Some ImpossibleRound
      | _ => None
      end
  | _ => None
  end.

(** [final_states] *)
Definition final_states (r : Round) : bool :=
  match r with
  | FinishedDecisionMakerRound
  | FinishedWithoutDecisionRound
  | ImpossibleRound
  | BenchmarkingDoneRound
  | BenchmarkingModeDisabledRound
  | FinishedWithoutRedeemingRound
  | RefillRequiredRound
  | FinishedSubscriptionRound => true
  | _ => false
  end.

(** [event_to_timeout]: seconds, the floats [30.0] and [60.0]. *)
Definition event_to_timeout (e : Event) : option Qc :=
  match e with
  | ROUND_TIMEOUT => Some (Qc_of_Z 30)
  | REDEEM_ROUND_TIMEOUT => Some (Qc_of_Z 60)
  | _ => None
  end.

(** An event is a timeout event when [event_to_timeout] has it as a key. *)
Definition is_timeout_event (e : Event) : bool :=
  match event_to_timeout e with
  | Some _ => true
  | None => false
  end.

End Rounds.

(** ** market_manager_abci/bets.py: the bet entity *)

Module Bets.

(** Modelled from the spec: [QueueStatus] is declared in
    [market_manager_abci/bets.py], which is not among the sources; the
    specification gives its members as FRESH, TO_PROCESS and EXPIRED. *)
Inductive QueueStatus : Type :=
| EXPIRED
| FRESH
| TO_PROCESS.

#[global] Instance QueueStatus_eq_dec : EqDecision QueueStatus.
Proof. solve_decision. Defined.

(** Modelled from the spec: the [Bet] dataclass is declared in
    [market_manager_abci/bets.py], which is not among the sources. The
    fields are those of the specification's data model: the identity, the
    market facts refreshed by each fetch, and the agent's bookkeeping. *)
Record Bet : Type := mkBet {
  id : string;
  market : string;
  openingTimestamp : Z;
  scaledLiquidityMeasure : Qc;
  outcomeTokenAmounts : list Z;
  fee : Z;
  queue_no : Z;
  processed_timestamp : Z;
  n_bets : Z;
  invested_amount : Qc;
  queue_status : QueueStatus
}.

(** Dataclass equality compares every field. *)
#[global] Instance Bet_eq_dec : EqDecision Bet.
Proof. solve_decision. Defined.

(** The agent-local bookkeeping of a bet. *)
Definition bookkeeping (b : Bet) : Z * Z * Z * Qc * QueueStatus :=
  (queue_no b, processed_timestamp b, n_bets b, invested_amount b,
   queue_status b).

(** The market-facing fields of a bet: liquidity, pool balances, opening
    time, fee. *)
Definition market_info (b : Bet) : Qc * list Z * Z * Z :=
  (scaledLiquidityMeasure b, outcomeTokenAmounts b, openingTimestamp b, fee b).

Definition set_queue_status (s : QueueStatus) (b : Bet) : Bet :=
  mkBet (id b) (market b) (openingTimestamp b) (scaledLiquidityMeasure b)
        (outcomeTokenAmounts b) (fee b) (queue_no b) (processed_timestamp b)
        (n_bets b) (invested_amount b) s.

(** Modelled from the spec: [Bet.blacklist_forever] lives in the missing
    [bets.py]; the specification's [expire_due] sets
    [queue_status = EXPIRED] permanently. *)
Definition blacklist_forever (b : Bet) : Bet := set_queue_status EXPIRED b.

(** Modelled from the spec: [Bet.update_market_info] lives in the missing
    [bets.py]; the specification's [merge] updates only the market-facing
    fields (liquidity, pool balances, opening time, fee) and preserves the
    local bookkeeping. *)
Definition update_market_info (self other : Bet) : Bet :=
  mkBet (id self) (market self) (openingTimestamp other)
        (scaledLiquidityMeasure other) (outcomeTokenAmounts other) (fee other)
        (queue_no self) (processed_timestamp self) (n_bets self)
        (invested_amount self) (queue_status self).

End Bets.

(** ** decision_maker_abci/payloads.py *)

Module Payloads.
Import Py.

(** A frozen dataclass instance: its fields, in declaration order, with
    their values. *)
Definition instance : Type := list (string * value).

Definition getattr (p : instance) (name : string) : option value :=
  snd <$> List.find (fun fv => bool_decide (fst fv = name)) p.

(** The generated [__init__] of a dataclass whose fields have no defaults:
    positional arguments fill the fields in declaration order; too many
    arguments, a keyword that names no remaining field, or a field left
    without a value raise [TypeError]. *)
Fixpoint bind_positional (fields : list string) (args : list value)
    : result (instance * list string) :=
  match args with
  | [] => Ok ([], fields)
  | a :: args' =>
      match fields with
      | [] => Raise TypeError
      | f :: fields' =>
          let? r := bind_positional fields' args' in
          Ok ((f, a) :: fst r, snd r)
      end
  end.

Fixpoint bind_keywords (remaining : list string) (kwargs : list (string * value))
    : result instance :=
  match remaining with
  | [] => match kwargs with [] => Ok [] | _ => Raise TypeError end
  | f :: remaining' =>
      match List.find (fun kv => bool_decide (fst kv = f)) kwargs with
      | None => Raise TypeError
      | Some kv =>
          let? r := bind_keywords remaining'
                 (List.filter (fun kv' => negb (bool_decide (fst kv' = f))) kwargs) in
          Ok ((f, snd kv) :: r)
      end
  end.

Definition dataclass_init (fields : list string) (args : list value)
    (kwargs : list (string * value)) : result instance :=
  let? r := bind_positional fields args in
  let? k := bind_keywords (snd r) kwargs in
  Ok (fst r ++ k).

(** [BaseTxPayload] belongs to the framework skill [abstract_round_abci];
    its one constructor field is [sender] (the other two, [round_count] and
    [id_], are excluded from [__init__]). The call
    [PredictionPayload(agent_address, prediction_event=event)] in
    [behaviours/prediction.py] relies on exactly that. *)
Definition BaseTxPayload_fields : list string := ["sender"%string].

(** [class PredictionPayload(BaseTxPayload): prediction_event: str] *)
Definition PredictionPayload_fields : list string :=
  BaseTxPayload_fields ++ ["prediction_event"%string].
Definition PredictionPayload := dataclass_init PredictionPayload_fields.

(** [class SamplingPayload(BaseTxPayload): index: Optional[int]] *)
Definition SamplingPayload_fields : list string :=
  BaseTxPayload_fields ++ ["index"%string].
Definition SamplingPayload := dataclass_init SamplingPayload_fields.

End Payloads.

(** ** decision_maker_abci/states/prediction.py *)

Module PredictionState.
Import Py.

(** The round's [collection]: sender to payload value
    ([prediction_event]), a dict in insertion order. *)
Definition collection : Type := list (string * string).

(** Modelled from the spec: payload collection belongs to the framework
    class [CollectSameUntilThresholdRound], which is not among the sources.
    The specification's [submit(agent_id, payload)]: a duplicate submission
    from the same agent overwrites the earlier one (the dict entry keeps
    its position), it does not accumulate. *)
Fixpoint submit (agent payload : string) (c : collection) : collection :=
  match c with
  | [] => [(agent, payload)]
  | (a, p) :: r =>
      if decide (a = agent) then (a, payload) :: r
      else (a, p) :: submit agent payload r
  end.

Definition collect (submissions : list (string * string)) : collection :=
  fold_left (fun c s => submit (fst s) (snd s) c) submissions [].

(** Modelled from the spec: the consensus layer reports a count per
    distinct payload. The counts are kept in a dict, whose iteration order
    is the order in which each distinct payload was first counted. *)
Fixpoint count_one (v : string) (d : list (string * Z)) : list (string * Z) :=
  match d with
  | [] => [(v, 1)]
  | (k, n) :: r =>
      if decide (k = v) then (k, n + 1) :: r else (k, n) :: count_one v r
  end.

Definition payload_values_count (c : collection) : list (string * Z) :=
  fold_left (fun d ap => count_one (snd ap) d) c [].

(** Modelled from the spec: [threshold_reached] holds once some payload
    value has been submitted by at least [T] distinct agents. *)
Definition threshold_reached (T : Z) (c : collection) : bool :=
  existsb (fun kn => bool_decide (T <= snd kn)) (payload_values_count c).

(** Modelled from the spec: the dict the specification has [end_block]
    choose from, payload value to vote count. The attribute
    [most_voted_payload_with_threshold] that [end_block] reads is defined
    nowhere in the sources; these counts are the value it holds in the
    specification's setting. *)
Definition most_voted_payload_with_threshold (c : collection) : list (string * Z) :=
  payload_values_count c.

(** [d.get(k)] on the count dict; every key that [max] passes to it is a
    key of the dict. *)
Definition get (d : list (string * Z)) (k : string) : Z :=
  match List.find (fun kn => bool_decide (fst kn = k)) d with
  | Some kn => snd kn
  | None => 0
  end.

(** The two entries [end_block] writes into the synchronized data. *)
Record SynchronizedData : Type := mkSync {
  participant_to_prediction : option collection;
  most_voted_prediction : option string
}.

(** [PredictionRound.end_block]. Two things it uses belong to the
    framework class and are taken as given outcomes:
    - [inherited], the outcome of the call of the inherited [end_block],
      whose returned value the override discards;
    - [attribute], the outcome of reading
      [self.most_voted_payload_with_threshold]: the dict it holds, or
      [AttributeError] where the class has no such attribute.
    [max(d, key=d.get)] iterates the keys of the dict in its order. *)
Definition end_block (inherited : result unit)
    (attribute : result (list (string * Z)))
    (T : Z) (c : collection) (sd : SynchronizedData)
    : result SynchronizedData :=
  let? finished := inherited in
  if threshold_reached T c then
    let? d := attribute in
    let? prediction_event := max_key (get d) (map fst d) in
    Ok (mkSync (Some c) (Some prediction_event))
  else Ok sd.

(** Four agents, two votes for each of two values, in two arrival orders. *)
Definition done_first : list (string * string) :=
  [("agent_0", "done"); ("agent_1", "done");
   ("agent_2", "unprofitable"); ("agent_3", "unprofitable")]%string.

Definition unprofitable_first : list (string * string) :=
  [("agent_2", "unprofitable"); ("agent_3", "unprofitable");
   ("agent_0", "done"); ("agent_1", "done")]%string.

(** The value [end_block] writes as [most_voted_prediction] after the
    given submissions, starting from empty synchronized data, in the
    specification's setting: the inherited [end_block] returns and the
    attribute holds the vote counts. *)
Definition winner (T : Z) (submissions : list (string * string))
    : result (option string) :=
  let? sd := end_block (Ok tt)
               (Ok (most_voted_payload_with_threshold (collect submissions)))
               T (collect submissions) (mkSync None None) in
  Ok (most_voted_prediction sd).

End PredictionState.

(** ** decision_maker_abci/behaviours/sampling.py *)

Module Sampling.
Import Py Bets.

Definition WEEKDAYS : Z := 7.
Definition UNIX_DAY : Z := 60 * 60 * 24.
Definition UNIX_WEEK : Z := WEEKDAYS * UNIX_DAY.

(** The skill parameters the behaviour reads from [self.params]. *)
Record Params : Type := mkParams {
  rebet_chance : Qc;
  sample_bets_closing_days : Z;
  opening_margin : Z;
  safe_voting_range : Z
}.

(** The behaviour's mutable state: [self.bets], the process-wide
    [shared_state.liquidity_cache] and [self.should_rebet]. *)
Record State : Type := mkState {
  bets : list Bet;
  liquidity_cache : gmap string Qc;
  should_rebet : bool
}.

Section Behaviour.

(** [random.seed(s); random.random()]: the first draw of the generator
    seeded with [s], a function of the seed. *)
Variable random_random : string -> Qc.
Variable params : Params.
(** [self.synced_timestamp] *)
Variable now : Z.

(** [setup]: [stored] is what [read_bets] loads. *)
Definition setup (stored : list Bet) (cache : gmap string Qc)
    (most_voted_randomness : string) : State :=
  let has_bet_in_the_past :=
    existsb (fun bet => bool_decide (n_bets bet > 0)) stored in
  mkState stored cache
    (if has_bet_in_the_past
     then bool_decide (random_random most_voted_randomness <= rebet_chance params)%Qc
     else false).

Definition has_liquidity_changed (st : State) (bet : Bet) : bool :=
  match liquidity_cache st !! id bet with
  | None => true
  | Some previous_bet_liquidity =>
      negb (bool_decide (scaledLiquidityMeasure bet = previous_bet_liquidity))
  end.

Definition processable_bet (st : State) (bet : Bet) : bool :=
  let within_opening_range :=
    bool_decide (openingTimestamp bet
                 <= now + sample_bets_closing_days params * UNIX_DAY) in
  let within_safe_range :=
    bool_decide (now < openingTimestamp bet - opening_margin params
                       - safe_voting_range params) in
  let within_ranges := within_opening_range && within_safe_range in
  if xorb (should_rebet st) (negb (bool_decide (n_bets bet = 0))) then false
  else if negb (should_rebet st) then
    within_ranges && has_liquidity_changed st bet
  else
    let lifetime := openingTimestamp bet - now in
    let t_rebetting := lifetime `div` UNIX_WEEK + UNIX_DAY in
    let can_rebet := bool_decide (now >= processed_timestamp bet + t_rebetting) in
    within_ranges && can_rebet.

(** The sort key of the new bets. *)
Definition new_key (bet : Bet) : Qc * Z :=
  (scaledLiquidityMeasure bet, openingTimestamp bet).
Definition new_key_lt : Qc * Z -> Qc * Z -> bool := tuple_lt Qcltb Zltb.

(** The sort key of the priority bets. *)
Definition priority_key (bet : Bet) : Qc * (Z * (Qc * Z)) :=
  (invested_amount bet,
   (- processed_timestamp bet,
    (scaledLiquidityMeasure bet, openingTimestamp bet))).
Definition priority_key_lt : Qc * (Z * (Qc * Z)) -> Qc * (Z * (Qc * Z)) -> bool :=
  tuple_lt Qcltb (tuple_lt Zltb (tuple_lt Qcltb Zltb)).

(** [l[0]] *)
Definition first (l : list Bet) : result Bet := getitem l 0.

Definition _sampled_bet_idx (st : State) (bets : list Bet) : result nat :=
  let? least_queue_number := min_list (map queue_no bets) in
  let priority_bets :=
    List.filter (fun bet => bool_decide (queue_no bet = least_queue_number)) bets in
  let new_in_priority_bets :=
    List.filter (fun bet => bool_decide (processed_timestamp bet = 0)) bets in
  match new_in_priority_bets with
  | _ :: _ =>
      let? b := first (sort_reverse new_key_lt new_key new_in_priority_bets) in
      index b (Sampling.bets st)
  | [] =>
      let? b := first (sort_reverse priority_key_lt priority_key priority_bets) in
      index b (Sampling.bets st)
  end.

(** [_sample]: the returned index ([None] when nothing is sampled) and
    the state after the call. *)
Definition _sample (st : State) : result (option nat * State) :=
  let available_bets := List.filter (processable_bet st) (bets st) in
  if bool_decide (length available_bets = 0%nat) then Ok (None, st)
  else
    let? idx := _sampled_bet_idx st available_bets in
    let? sampled_bet := getitem (bets st) idx in
    let liquidity := scaledLiquidityMeasure sampled_bet in
    if bool_decide (liquidity = Qc_of_Z 0) then Ok (None, st)
    else
      Ok (Some idx,
          mkState (bets st)
                  (<[id sampled_bet := liquidity]> (liquidity_cache st))
                  (should_rebet st)).

(** The specification's [select(now, randomness_seed, rebet_chance)]:
    [setup] followed by [_sample]. *)
Definition select (stored : list Bet) (cache : gmap string Qc)
    (randomness_seed : string) : result (option nat * State) :=
  _sample (setup stored cache randomness_seed).

(** [hash_stored_bets]: the IPFS hash of the stored bets file, a function
    of what the file holds. *)
Variable hash_file : list Bet -> string.

(** [store_bets] writes nothing when there is nothing to serialize. *)
Definition store_bets (st : State) (file : list Bet) : list Bet :=
  match bets st with
  | [] => file
  | _ => bets st
  end.

Definition value_of_idx (idx : option nat) : value :=
  match idx with
  | None => VNone
  | Some i => VInt (Z.of_nat i)
  end.

(** [async_act] up to the construction of the payload. *)
Definition async_act (agent_address : string) (file : list Bet) (st : State)
    : result Payloads.instance :=
  let? r := _sample st in
  let idx := fst r in
  let file' := store_bets (snd r) file in
  let bets_hash :=
    match idx with
    | None => VNone
    | Some _ => VStr (hash_file file')
    end in
  Payloads.SamplingPayload [VStr agent_address; bets_hash; value_of_idx idx] [].

End Behaviour.

(** [b] is not ranked below [c] by the sort of the new bets: higher
    liquidity first, then later opening time. *)
Definition new_rank_ge (b c : Bet) : Prop :=
  (scaledLiquidityMeasure c < scaledLiquidityMeasure b)%Qc
  \/ (scaledLiquidityMeasure c = scaledLiquidityMeasure b
      /\ openingTimestamp c <= openingTimestamp b).

(** [b] is not ranked below [c] by the sort of the priority bets: higher
    invested amount first, then earlier processed timestamp, then higher
    liquidity, then later opening time. *)
Definition priority_rank_ge (b c : Bet) : Prop :=
  (invested_amount c < invested_amount b)%Qc
  \/ (invested_amount c = invested_amount b
      /\ (processed_timestamp b < processed_timestamp c
          \/ (processed_timestamp b = processed_timestamp c
              /\ new_rank_ge b c))).

(** What [_sample] returns once [_sampled_bet_idx] has picked the bet
    [sampled_bet] at position [idx]: nothing when the pick has zero
    liquidity, and otherwise the index, with the liquidity of the pick
    recorded in the cache. *)
Definition sampled (st : State) (idx : nat) (sampled_bet : Bet)
    : option nat * State :=
  if bool_decide (scaledLiquidityMeasure sampled_bet = Qc_of_Z 0) then (None, st)
  else (Some idx,
        mkState (bets st)
                (<[id sampled_bet := scaledLiquidityMeasure sampled_bet]>
                   (liquidity_cache st))
                (should_rebet st)).

(** The index a call returned. *)
Definition returned (r : result (option nat * State)) : result (option nat) :=
  let? r := r in Ok (fst r).

(** Example setting: sampling at time 1000000 of markets that open within
    ten days, with a margin of 300 seconds and a safe voting range of 600
    seconds; the generator draws 0.25 for every seed. *)
Definition example_params (chance : Qc) : Params := mkParams chance 10 300 600.
Definition example_now : Z := 1000000.
Definition example_random (seed : string) : Qc := Q2Qc (1 # 4).

(** A bet on a market opening at time 1300000. *)
Definition market_bet (bet_id : string) (liquidity : Z) (queue processed placed : Z)
    (invested : Z) (status : QueueStatus) : Bet :=
  mkBet bet_id "omen" 1300000 (Qc_of_Z liquidity) [1; 1] 2 queue processed placed
        (Qc_of_Z invested) status.

(** Two never-bet bets with liquidities 5 and 10, the first in the lower
    queue. *)
Definition never_bet_registry : list Bet :=
  [market_bet "0xa" 5 0 0 0 0 TO_PROCESS; market_bet "0xb" 10 1 0 0 0 TO_PROCESS].

(** Two previously-bet bets in the same queue with equal invested amounts,
    processed at times 200 and 100. *)
Definition previously_bet_registry : list Bet :=
  [market_bet "0xa" 5 0 200 1 40 TO_PROCESS; market_bet "0xb" 5 0 100 1 40 TO_PROCESS].

(** The same two bets with the least recently processed one in a higher
    queue. *)
Definition split_queue_registry : list Bet :=
  [market_bet "0xa" 5 0 200 1 40 TO_PROCESS; market_bet "0xb" 5 1 100 1 40 TO_PROCESS].

(** A registry whose only bet is expired although its market is still
    inside the sampling window. *)
Definition expired_in_window_registry : list Bet :=
  [market_bet "0xa" 10 0 0 0 0 EXPIRED].

(** An expired bet whose market opened at time 900000, followed by a live
    bet. *)
Definition expired_due_registry : list Bet :=
  [mkBet "0xe" "omen" 900000 (Qc_of_Z 20) [1; 1] 2 0 0 0 (Qc_of_Z 0) EXPIRED;
   market_bet "0xb" 10 0 0 0 0 TO_PROCESS].

End Sampling.

(** ** market_manager_abci/behaviours.py *)

Module MarketManager.
Import Py Bets.

(** Modelled from the spec: [FetchStatus] is declared in
    [graph_tooling/requests.py], which is not among the sources; the
    specification names the statuses a fetch reports as success, partial
    and failure. The behaviour only ever tests for [SUCCESS]. *)
Inductive FetchStatus : Type :=
| SUCCESS
| PARTIAL
| FAILURE.

#[global] Instance FetchStatus_eq_dec : EqDecision FetchStatus.
Proof. solve_decision. Defined.

(** A raw bet record as delivered by the market-data collaborator: id,
    liquidity, pool balances, opening timestamp, fee. *)
Record RawBet : Type := mkRaw {
  raw_id : string;
  raw_openingTimestamp : Z;
  raw_scaledLiquidityMeasure : Qc;
  raw_outcomeTokenAmounts : list Z;
  raw_fee : Z
}.

(** The [Bet] built from the fields of a raw record and the current
    market: the bookkeeping fields take their defaults. *)
Definition new_Bet (raw : RawBet) (market : string) : Bet :=
  mkBet (raw_id raw) market (raw_openingTimestamp raw)
        (raw_scaledLiquidityMeasure raw) (raw_outcomeTokenAmounts raw)
        (raw_fee raw) 0 0 0 (Qc_of_Z 0) FRESH.

(** [get_bet_idx]: [next((i for i, bet in enumerate(bets) if bet.id == bet_id), None)] *)
Fixpoint get_bet_idx (bets : list Bet) (bet_id : string) : option nat :=
  match bets with
  | [] => None
  | bet :: r =>
      if decide (id bet = bet_id) then Some 0%nat
      else S <$> get_bet_idx r bet_id
  end.

(** The body of the loop of [_process_chunk]. *)
Definition process_raw (market : string) (bets : list Bet) (raw_bet : RawBet)
    : list Bet :=
  let bet := new_Bet raw_bet market in
  match get_bet_idx bets (id bet) with
  | None => bets ++ [bet]
  | Some index => alter (fun tracked => update_market_info tracked bet) index bets
  end.

Definition _process_chunk (market : string) (chunk : option (list RawBet))
    (bets : list Bet) : list Bet :=
  match chunk with
  | None => bets
  | Some chunk => fold_left (process_raw market) chunk bets
  end.

(** [_update_bets]: [fetched] is what the fetching loop delivers, one
    entry per iteration (the market being queried and the chunk returned
    for it); [fetch_status] is [self._fetch_status] when the loop ends. *)
Definition _update_bets (fetched : list (string * option (list RawBet)))
    (fetch_status : FetchStatus) (bets : list Bet) : list Bet :=
  let bets :=
    fold_left (fun bets mc => _process_chunk (fst mc) (snd mc) bets) fetched bets in
  if decide (fetch_status <> SUCCESS) then [] else bets.

Definition _requeue_all_bets (bets : list Bet) : list Bet :=
  map (fun bet =>
         if decide (queue_status bet <> EXPIRED)
         then set_queue_status FRESH bet else bet) bets.

Definition _blacklist_expired_bets (synced_time opening_margin : Z)
    (bets : list Bet) : list Bet :=
  map (fun bet =>
         if bool_decide (synced_time >= openingTimestamp bet - opening_margin)
         then blacklist_forever bet else bet) bets.

Definition all_bets_fresh (bets : list Bet) : bool :=
  forallb (fun bet => bool_decide (queue_status bet = FRESH))
          (List.filter (fun bet => negb (bool_decide (queue_status bet = EXPIRED))) bets).

Definition _bet_freshness_check_and_update (bets : list Bet) : list Bet :=
  if all_bets_fresh bets then
    map (fun bet =>
           if negb (bool_decide (queue_status bet = EXPIRED))
           then set_queue_status TO_PROCESS bet else bet) bets
  else bets.

(** The registry after [UpdateBetsBehaviour.async_act], from the stored
    bets [read_bets] loads. *)
Definition async_act_bets (is_checkpoint_reached : bool)
    (synced_time opening_margin : Z)
    (fetched : list (string * option (list RawBet))) (fetch_status : FetchStatus)
    (stored : list Bet) : list Bet :=
  let bets := stored in
  let bets := if is_checkpoint_reached then _requeue_all_bets bets else bets in
  let bets :=
    match bets with
    | [] => bets
    | _ => _blacklist_expired_bets synced_time opening_margin bets
    end in
  let bets := _update_bets fetched fetch_status bets in
  match bets with
  | [] => bets
  | _ => _bet_freshness_check_and_update bets
  end.

(** Example registry: two fresh bets and an expired one. *)
Definition example_bet (bet_id : string) (liquidity : Z) (status : QueueStatus) : Bet :=
  mkBet bet_id "omen" 2000000 (Qc_of_Z liquidity) [1; 1] 2 0 0 0 (Qc_of_Z 0) status.

Definition fresh_cohort : list Bet :=
  [example_bet "0xa" 10 FRESH; example_bet "0xb" 5 FRESH;
   example_bet "0xc" 7 EXPIRED].

(** Example fetch: one chunk refreshing a tracked bet and bringing a new
    one. *)
Definition example_fetch : list (string * option (list RawBet)) :=
  [("omen"%string,
    Some [mkRaw "0xa" 2000500 (Qc_of_Z 12) [2; 3] 2;
          mkRaw "0xd" 2000900 (Qc_of_Z 4) [1; 1] 2])].

(** [kept bets bets']: every bet of [bets] is still tracked by [bets'] at
    the same position, with the same id and the same bookkeeping. *)
Definition kept (bets bets' : list Bet) : Prop :=
  forall i b, bets !! i = Some b ->
    exists b', bets' !! i = Some b' /\ id b' = id b
               /\ bookkeeping b' = bookkeeping b.

(** What [_bet_freshness_check_and_update] does to a bet when it promotes. *)
Definition promote (bet : Bet) : Bet :=
  if negb (bool_decide (queue_status bet = EXPIRED))
  then set_queue_status TO_PROCESS bet else bet.

(** The fetched records in the order [_update_bets] merges them, each
    with the market it was fetched for. *)
Definition fetched_records (fetched : list (string * option (list RawBet)))
    : list (string * RawBet) :=
  flat_map (fun mc =>
              match snd mc with
              | Some chunk => map (pair (fst mc)) chunk
              | None => []
              end) fetched.

(** The last of the records that carry the given id. *)
Fixpoint last_record (bet_id : string) (records : list (string * RawBet))
    : option (string * RawBet) :=
  match records with
  | [] => None
  | r :: rest =>
      match last_record bet_id rest with
      | Some r' => Some r'
      | None => if decide (raw_id (snd r) = bet_id) then Some r else None
      end
  end.

(** The market-facing fields a raw record carries. *)
Definition raw_market_info (raw : RawBet) : Qc * list Z * Z * Z :=
  (raw_scaledLiquidityMeasure raw, raw_outcomeTokenAmounts raw,
   raw_openingTimestamp raw, raw_fee raw).

(** The bookkeeping of a bet that was never touched by the agent. *)
Definition default_bookkeeping : Z * Z * Z * Qc * QueueStatus :=
  (0, 0, 0, Qc_of_Z 0, FRESH).

(** The two nested loops of [_update_bets] and [_process_chunk] as one
    pass over the fetched records. *)
Definition merge_records (records : list (string * RawBet)) (bets : list Bet)
    : list Bet :=
  fold_left (fun bets r => process_raw (fst r) bets (snd r)) records bets.

(** Example fetch in which an id is delivered twice, by two chunks. *)
Definition refetch : list (string * option (list RawBet)) :=
  [("omen"%string,
    Some [mkRaw "0xa" 2000500 (Qc_of_Z 12) [2; 3] 2;
          mkRaw "0xd" 2000900 (Qc_of_Z 4) [1; 1] 2]);
   ("omen"%string, None);
   ("omen"%string,
    Some [mkRaw "0xa" 2000700 (Qc_of_Z 15) [4; 3] 2])].

End MarketManager.

(** ** decision_maker_abci/tools/supafund_predictor.py and
       decision_maker_abci/behaviours/prediction.py *)

Module Prediction.
Import Py.

(** [re.search] for the literal [application_id] followed by a space and a
    quoted group of non-quote characters: the captured group of the
    leftmost match. The group cannot span a quote, so at a position where
    the literal prefix matches, the pattern matches exactly when a closing
    quote follows. *)
Fixpoint strip_prefix (p s : string) : option string :=
  match p with
  | EmptyString => Some s
  | String a p' =>
      match s with
      | EmptyString => None
      | String b s' => if Ascii.eqb a b then strip_prefix p' s' else None
      end
  end.

Fixpoint until_quote (s : string) : option string :=
  match s with
  | EmptyString => None
  | String c r =>
      if Ascii.eqb c "'"%char then Some EmptyString
      else String c <$> until_quote r
  end.

Definition match_here (s : string) : option string :=
  match strip_prefix "application_id '" s with
  | Some rest => until_quote rest
  | None => None
  end.

Fixpoint search (s : string) : option string :=
  match match_here s with
  | Some group => Some group
  | None =>
      match s with
      | EmptyString => None
      | String _ r => search r
      end
  end.

(** The environment variables the predictor reads with [os.getenv]. *)
Record Env : Type := mkEnv {
  NEXT_PUBLIC_SUPABASE_URL : option string;
  SUPABASE_SERVICE_ROLE_KEY : option string;
  OPENAI_API_KEY : option string
}.

(** [not s] for an optional string: [None] and the empty string are falsy. *)
Definition falsy (s : option string) : bool :=
  match s with
  | None => true
  | Some s => bool_decide (s = EmptyString)
  end.

(** A prediction result: the JSON object as a dict. *)
Abbreviation prediction_dict := (gmap string value) (only parsing).

Definition error_result (reasoning : string) : prediction_dict :=
  <["prediction"%string := VStr "ERROR"]>
    (<["confidence"%string := VFloat (Qc_of_Z 0)]>
       (<["reasoning"%string := VStr reasoning]> ∅)).

Section Predictor.

Variable env : Env.

(** The constructors of the two third-party clients, [create_client(url,
    key)] of the Supabase library and [OpenAI(api_key=...)]: the client is
    built, or the constructor raises (the Supabase library rejects a URL
    or a key it cannot accept, for one). Neither call is inside a [try]. *)
Variable create_client : string -> string -> result unit.
Variable OpenAI : string -> result unit.

(** What the external collaborators do inside the [try] block of
    [SupafundPredictor.run] (the Supabase queries, feature assembly and
    the language-model request), given the application id and the market
    question: the dict returned, or the text of the exception raised. *)
Variable pipeline : string -> string -> prediction_dict + string.

(** [SupafundClient.__init__] *)
Definition SupafundClient_init (url key : option string) : result unit :=
  if falsy url || falsy key then Raise ValueError
  else create_client (default EmptyString url) (default EmptyString key).

(** [LLMClient.__init__] *)
Definition LLMClient_init (api_key : option string) : result unit :=
  if falsy api_key then Raise ValueError
  else OpenAI (default EmptyString api_key).

(** [SupafundPredictor.__init__]: the Supabase client is built first, then
    the language-model client; the feature assembler and the prediction
    engine only store what they are given. *)
Definition SupafundPredictor_init : result unit :=
  let? supafund_client :=
    SupafundClient_init (NEXT_PUBLIC_SUPABASE_URL env)
                        (SUPABASE_SERVICE_ROLE_KEY env) in
  let? llm_client := LLMClient_init (OPENAI_API_KEY env) in
  Ok tt.

(** [SupafundPredictor.run] *)
Definition run (market_question : string) : result prediction_dict :=
  match search market_question with
  | None => Raise ValueError
  | Some application_id =>
      match pipeline application_id market_question with
      | inl prediction => Ok prediction
      | inr e => Ok (error_result e)
      end
  end.

(** [run_prediction]: [SupafundPredictor().run(market_question)] *)
Definition run_prediction (market_question : string) : result prediction_dict :=
  let? ready := SupafundPredictor_init in
  run market_question.

(** [v > 0.5] for a dynamically typed [v]; a value that is not a number
    raises [TypeError]. *)
Definition gt_half (v : value) : result bool :=
  match number v with
  | Some q => Ok (bool_decide (Q2Qc (1 # 2) < q)%Qc)
  | None => Raise TypeError
  end.

(** [PredictionBehaviour.async_act] up to the payload it sends;
    [and] evaluates its right operand only when the left one is true. *)
Definition async_act (agent_address question : string) : result Payloads.instance :=
  let? prediction_result := run_prediction question in
  let? is_profitable :=
    (if decide (prediction_result !! "prediction"%string = Some (VStr "Yes"))
     then gt_half (default (VFloat (Qc_of_Z 0))
                           (prediction_result !! "confidence"%string))
     else Ok false) in
  let event :=
    if is_profitable then Rounds.value Rounds.DONE
    else Rounds.value Rounds.UNPROFITABLE in
  Payloads.PredictionPayload [VStr agent_address]
    [("prediction_event"%string, VStr event)].

End Predictor.

(** The confidence the behaviour reads from a result: the value under
    [confidence], [0.0] when the key is absent. *)
Definition confidence_of (prediction_result : prediction_dict) : value :=
  default (VFloat (Qc_of_Z 0)) (prediction_result !! "confidence"%string).


Definition rejected (prediction_result : prediction_dict) : Prop :=
  prediction_result !! "prediction"%string <> Some (VStr "Yes") \/
  exists q, number (confidence_of prediction_result) = Some q
            /\ (q <= Q2Qc (1 # 2))%Qc.

(** The payload the behaviour sends for an event. *)
Definition payload_for (agent_address : string) (e : Rounds.Event)
    : Payloads.instance :=
  [("sender"%string, VStr agent_address);
   ("prediction_event"%string, VStr (Rounds.value e))].

(** Example setting: credentials present, client constructors that
    accept them, an oracle that answers "Yes" with confidence 0.9, and two
    market questions, of which only the first names an application id. *)
Definition example_env : Env :=
  mkEnv (Some "https://db.example"%string) (Some "service-key"%string)
        (Some "llm-key"%string).

Definition accepting_create_client (url key : string) : result unit := Ok tt.
Definition accepting_OpenAI (api_key : string) : result unit := Ok tt.

(** A Supabase constructor that rejects every URL, as the library does
    with one it cannot parse. *)
Definition rejecting_create_client (url key : string) : result unit :=
  Raise (LibraryError "SupabaseException").

Definition confident_yes : prediction_dict :=
  <["prediction"%string := VStr "Yes"]>
    (<["confidence"%string := VFloat (Q2Qc (9 # 10))]>
       (<["reasoning"%string := VStr "strong fit"]> ∅)).


Definition question_with_id : string :=
  "Will the project with application_id 'app-42' be funded?".


End Prediction.

(** ** custom_scripts/supafund_trader/supafund_trader.py *)

Module SupafundTrader.
Import Py.

Local Open Scope string_scope.

(** The members of the frozenset [REQUIRED_FIELDS], in the order the
    source lists them. *)
Definition REQUIRED_FIELDS : list string :=
  ["bankroll"; "win_probability"; "confidence";
   "selected_type_tokens_in_pool"; "other_tokens_in_pool"; "bet_fee";
   "floor_balance"].

(** [repr] of a list of strings that hold neither quotes nor escapes. *)
Definition repr_str (s : string) : string := "'" +:+ s +:+ "'".

Fixpoint join (sep : string) (l : list string) : string :=
  match l with
  | [] => ""
  | [s] => s
  | s :: r => s +:+ sep +:+ join sep r
  end.

Definition repr_list (l : list string) : string :=
  "[" +:+ join ", " (map repr_str l) +:+ "]".

(** The dict [run] returns. *)
Record Output : Type := mkOutput {
  bet_amount : Z;
  p_yes : Qc;
  p_no : Qc;
  confidence : Qc;
  info : list string;
  error : list string
}.

(** What [get_supafund_prediction] returns: the placeholder prediction.
    The function also prints its keyword arguments; standard output is
    not part of the embedding, and the print is taken to succeed. *)
Definition get_supafund_prediction (kwargs : gmap string value) : Output :=
  mkOutput 0 (Q2Qc (6 # 10)) (Q2Qc (4 # 10)) (Q2Qc (8 # 10))
           ["Supafund prediction completed."] [].

Section Strategy.

(** The order in which iterating the frozenset [REQUIRED_FIELDS] yields
    its members; the language leaves it unspecified. *)
Variable iteration_order : list string.

(** [int(bankroll_adj * 0.01)] for an integer [bankroll_adj]: the
    integer is converted to a float, multiplied in binary floating point
    and truncated; the conversion raises [OverflowError] on an integer too
    large for a float. *)
Variable int_one_percent : Z -> result Z.

(** The sizing when [bankroll] or [floor_balance] is a float (the other
    may be an int, which [-] converts to a float first): the outcome of
    [bankroll - floor_balance], [bankroll_adj > 0] and
    [int(bankroll_adj * 0.01)] in binary floating point. [Ok None] when
    the difference is not above zero, [Ok (Some n)] when the bet amount is
    [n], and the exception when one of the three steps raises. *)
Variable float_sizing : value -> value -> result (option Z).

(** [str] of an integer. *)
Variable str_int : Z -> string.

Definition check_missing_fields (kwargs : gmap string value) : list string :=
  List.filter
    (fun field => bool_decide (default VNone (kwargs !! field) = VNone))
    iteration_order.

(** The three sizing steps of [run]: [bankroll - floor_balance],
    [bankroll_adj > 0] and [int(bankroll_adj * 0.01)]. [None] when the
    difference is not above zero. Integer arithmetic is exact ([bool] is
    a subclass of [int]); [-] raises [TypeError] on an operand that is not
    a number. *)
Definition placeholder_amount (bankroll floor_balance : value)
    : result (option Z) :=
  match as_int bankroll, as_int floor_balance with
  | Some x, Some y =>
      let bankroll_adj := x - y in
      if bool_decide (0 < bankroll_adj) then
        let? bet_amount := int_one_percent bankroll_adj in
        Ok (Some bet_amount)
      else Ok None
  | _, _ =>
      match number bankroll, number floor_balance with
      | Some _, Some _ => float_sizing bankroll floor_balance
      | _, _ => Raise TypeError
      end
  end.

Definition run (kwargs : gmap string value) : result Output :=
  let info : list string := [] in
  let error : list string := [] in
  let missing := check_missing_fields kwargs in
  if bool_decide (0 < length missing)%nat then
    let error :=
      (error ++ ["Required kwargs " +:+ repr_list missing
                 +:+ " were not provided for supafund_trader."])%list in
    Ok (mkOutput 0 (Qc_of_Z 0) (Qc_of_Z 0) (Qc_of_Z 0) info error)
  else
    let relevant_kwargs := kwargs in
    let prediction_results := get_supafund_prediction relevant_kwargs in
    let info := (info ++ SupafundTrader.info prediction_results)%list in
    let error := (error ++ SupafundTrader.error prediction_results)%list in
    match SupafundTrader.error prediction_results with
    | _ :: _ => Ok (mkOutput 0 (Qc_of_Z 0) (Qc_of_Z 0) (Qc_of_Z 0) info error)
    | [] =>
        let p_yes := SupafundTrader.p_yes prediction_results in
        let p_no := SupafundTrader.p_no prediction_results in
        let confidence := SupafundTrader.confidence prediction_results in
        let? sized :=
          (if bool_decide (Q2Qc (75 # 100) < confidence)%Qc then
             match relevant_kwargs !! "bankroll", relevant_kwargs !! "floor_balance" with
             | Some bankroll, Some floor_balance =>
                 let? amount := placeholder_amount bankroll floor_balance in
                 match amount with
                 | Some bet_amount =>
                     Ok (bet_amount,
                         (info ++ ["Calculated placeholder bet_amount: "
                                   +:+ str_int bet_amount])%list)
                 | None => Ok (0, info)
                 end
             | _, _ =>
                 Ok (0, (info ++ ["Bankroll not available for placeholder bet sizing."])%list)
             end
           else
             Ok (0, (info ++ ["Confidence below threshold, placeholder bet_amount is 0."])%list)) in
        Ok (mkOutput (fst sized) p_yes p_no confidence (snd sized) error)
    end.

End Strategy.

(** A keyword argument counts as missing when its key is absent or its
    value is [None]. *)
Definition is_missing (kwargs : gmap string value) (field : string) : Prop :=
  kwargs !! field = None \/ kwargs !! field = Some VNone.

(** [s] occurs in [t]. *)
Definition occurs_in (s t : string) : Prop :=
  exists before after, t = before +:+ s +:+ after.

(** Example call: every required field but [bankroll], and [bet_fee]
    passed as [None]. *)
Definition example_kwargs : gmap string value :=
  <["win_probability" := VFloat (Q2Qc (6 # 10))]>
    (<["confidence" := VFloat (Q2Qc (8 # 10))]>
       (<["selected_type_tokens_in_pool" := VInt 500]>
          (<["other_tokens_in_pool" := VInt 500]>
             (<["bet_fee" := VNone]>
                (<["floor_balance" := VInt 100]> ∅))))).

End SupafundTrader.

(** ** The transition table as a graph *)

Module RoundsGraph.
Import Rounds.

(** [r'] can be the active round after [r] was, following entries of
    [transition_function]. *)
Inductive reachable (r : Round) : Round -> Prop :=
| reach_here : reachable r r
| reach_step (r1 r2 : Round) (e : Event) :
    reachable r r1 -> transition_function r1 e = Some r2 -> reachable r r2.

End RoundsGraph.

(** ** Strict ranking of bets *)

Module SamplingRanks.
Import Bets Sampling.

(** [b] is ranked strictly above [c] by the sort of the new bets. *)
Definition new_rank_gt (b c : Bet) : Prop :=
  (scaledLiquidityMeasure c < scaledLiquidityMeasure b)%Qc
  \/ (scaledLiquidityMeasure c = scaledLiquidityMeasure b
      /\ openingTimestamp c < openingTimestamp b).

(** [b] is ranked strictly above [c] by the sort of the priority bets. *)
Definition priority_rank_gt (b c : Bet) : Prop :=
  (invested_amount c < invested_amount b)%Qc
  \/ (invested_amount c = invested_amount b
      /\ (processed_timestamp b < processed_timestamp c
          \/ (processed_timestamp b = processed_timestamp c
              /\ new_rank_gt b c))).

(** Two never-bet bets tied on liquidity and opening time. *)
Definition tied_registry : list Bet :=
  [market_bet "0xa" 10 0 0 0 0 TO_PROCESS; market_bet "0xb" 10 0 0 0 0 TO_PROCESS].

End SamplingRanks.

(** ** Example registries for the registry update *)

Module MarketManagerExamples.
Import Bets MarketManager.

(** A fetch that delivers the same unseen id twice, and a tracked one. *)
Definition repeated_fetch : list (string * option (list RawBet)) :=
  [("omen"%string,
    Some [mkRaw "0xd" 2000900 (Qc_of_Z 4) [1; 1] 2;
          mkRaw "0xd" 2000950 (Qc_of_Z 6) [2; 1] 2]);
   ("omen"%string, None);
   ("omen"%string, Some [mkRaw "0xb" 2000100 (Qc_of_Z 9) [3; 1] 2])].

(** A registry in the middle of a cycle: one bet still to process, one
    fresh, one expired. *)
Definition mid_cycle : list Bet :=
  [example_bet "0xa" 10 TO_PROCESS; example_bet "0xb" 5 FRESH;
   example_bet "0xc" 7 EXPIRED].

End MarketManagerExamples.

(** ** custom_scripts/supafund_trader/supafund_trader.py, continued *)

Module SupafundTraderFields.
Import Py SupafundTrader.

Local Open Scope string_scope.


(** A call with every required field, a bankroll of 1000 and a floor
    balance of 100, and a field the strategy does not know. *)
Definition complete_kwargs : gmap string value :=
  <["bankroll" := VInt 1000]>
    (<["some_other_data_supafund_needs" := VStr "example_value"]>
       (<["bet_fee" := VInt 2]> example_kwargs)).

(** The same call with the bankroll given as text. *)
Definition textual_kwargs : gmap string value :=
  <["bankroll" := VStr "1000"]> complete_kwargs.

End SupafundTraderFields.

(** ** The application id marker of a market question *)

Module PredictionParsing.
Import Prediction.

(** Whether a string holds a quote character. *)
Fixpoint has_quote (s : string) : bool :=
  match s with
  | EmptyString => false
  | String c r => Ascii.eqb c "'"%char || has_quote r
  end.

(** The position of the first quote character of a string. *)
Fixpoint first_quote (s : string) : option nat :=
  match s with
  | EmptyString => None
  | String c r => if Ascii.eqb c "'"%char then Some 0%nat else S <$> first_quote r
  end.

(** The text the predictor looks for, for a given application id. *)
Definition marker (application_id : string) : string :=
  "application_id '" +:+ application_id +:+ "'".

(** A result whose confidence is not a number. *)
Definition vague_yes : gmap string Py.value :=
  <["prediction"%string := Py.VStr "Yes"]>
    (<["confidence"%string := Py.VStr "high"]> ∅).

End PredictionParsing.

(** * Properties *)

(** ** The transition table *)

Module RoundsFacts.
Import Rounds.

(** The timeout events are exactly the two keys of [event_to_timeout]. *)
Lemma is_timeout_event_inv (e : Event) :
  is_timeout_event e = true -> e = ROUND_TIMEOUT \/ e = REDEEM_ROUND_TIMEOUT.
Proof. destruct e; cbn; intros H; try discriminate H; auto. Qed.

(** Final rounds have no outgoing transition. *)
Lemma final_states_no_transition (r : Round) (e : Event) :
  final_states r = true -> transition_function r e = None.
Proof. destruct r; cbn; intros H; try discriminate H; reflexivity. Qed.

(** C3, as the table has it: every entry keyed by a timeout event is either
    a [ROUND_TIMEOUT] entry, configured at 30 seconds, which leads back to
    the round it leaves, or the one [REDEEM_ROUND_TIMEOUT] entry, configured
    at 60 seconds, which leaves [RedeemRound] for
    [FinishedWithoutRedeemingRound]. *)
Theorem timeout_transition_destinations (r r' : Round) (e : Event) :
  is_timeout_event e = true ->
  transition_function r e = Some r' ->
  (e = ROUND_TIMEOUT /\ event_to_timeout e = Some (Qc_of_Z 30) /\ r' = r)
  \/ (e = REDEEM_ROUND_TIMEOUT /\ event_to_timeout e = Some (Qc_of_Z 60)
      /\ r = RedeemRound /\ r' = FinishedWithoutRedeemingRound).
Proof.
  intros He Ht.
  destruct (is_timeout_event_inv e He) as [-> | ->].
  - left. repeat split.
    destruct r; cbn in Ht; congruence.
  - right. split; [reflexivity | split; [reflexivity |]].
    destruct r; cbn in Ht; try discriminate Ht.
    split; congruence.
Qed.

Lemma timeout_transition_destinations_witness :
  is_timeout_event ROUND_TIMEOUT = true /\
  transition_function SamplingRound ROUND_TIMEOUT = Some SamplingRound /\
  ((ROUND_TIMEOUT = ROUND_TIMEOUT
    /\ event_to_timeout ROUND_TIMEOUT = Some (Qc_of_Z 30)
    /\ SamplingRound = SamplingRound)
   \/ (ROUND_TIMEOUT = REDEEM_ROUND_TIMEOUT
       /\ event_to_timeout ROUND_TIMEOUT = Some (Qc_of_Z 60)
       /\ SamplingRound = RedeemRound
       /\ SamplingRound = FinishedWithoutRedeemingRound)).
Proof.
  split; [reflexivity | split; [reflexivity |]].
  apply (timeout_transition_destinations SamplingRound SamplingRound ROUND_TIMEOUT);
    reflexivity.
Defined.

(** C3 as stated fails at [RedeemRound]: it has a timeout transition, on
    the timeout event [REDEEM_ROUND_TIMEOUT], whose destination is another
    round. *)
Lemma redeem_timeout_is_not_a_self_loop :
  is_timeout_event REDEEM_ROUND_TIMEOUT = true /\
  transition_function RedeemRound REDEEM_ROUND_TIMEOUT
    = Some FinishedWithoutRedeemingRound /\
  FinishedWithoutRedeemingRound <> RedeemRound.
Proof. repeat split; discriminate. Qed.

End RoundsFacts.

(** ** The prediction round *)

Module PredictionStateFacts.
Import Py PredictionState.

(** [max_from] returns its seed or an item of the list. *)
Lemma max_from_In {A : Type} (f : A -> Z) (l : list A) (best : A) :
  max_from f best l = best \/ In (max_from f best l) l.
Proof.
  revert best. induction l as [| x r IH]; intros best; cbn; [now left |].
  destruct (IH (if bool_decide (f best < f x) then x else best)) as [H | H].
  - rewrite H. case_bool_decide; auto.
  - auto.
Qed.

(** No item has a larger key than the one [max_from] returns. *)
Lemma max_from_upper {A : Type} (f : A -> Z) (l : list A) (best : A) :
  f best <= f (max_from f best l) /\
  forall y, In y l -> f y <= f (max_from f best l).
Proof.
  revert best. induction l as [| x r IH]; intros best; cbn.
  - split; [lia | tauto].
  - destruct (IH (if bool_decide (f best < f x) then x else best)) as [H1 H2].
    split.
    + case_bool_decide; lia.
    + intros y [<- | Hy]; [| now apply H2].
      case_bool_decide; lia.
Qed.

(** The payload [end_block] selects has the maximum vote count of the
    dict it is taken from. *)
Lemma max_key_maximum {A : Type} (f : A -> Z) (l : list A) (w : A) :
  max_key f l = Ok w -> In w l /\ forall y, In y l -> f y <= f w.
Proof.
  destruct l as [| x r]; cbn; [discriminate |].
  intros [= <-].
  destruct (max_from_In f r x) as [H | H];
    destruct (max_from_upper f r x) as [H1 H2].
  - split; [left; now rewrite H |]. intros y [<- | Hy]; auto.
  - split; [now right |]. intros y [<- | Hy]; auto.
Qed.

(** Among items with equal keys the earliest in iteration order wins: the
    head of the list is returned unless a later key is strictly larger. *)
Lemma max_from_keeps_first {A : Type} (f : A -> Z) (l : list A) (best : A) :
  (forall y, In y l -> f y <= f best) -> max_from f best l = best.
Proof.
  revert best. induction l as [| x r IH]; intros best H; cbn; [reflexivity |].
  rewrite bool_decide_eq_false_2.
  - apply IH. intros y Hy. apply H. now right.
  - specialize (H x (or_introl eq_refl)). lia.
Qed.

(** C1 at the tie of the specification's own test (two values with two
    votes each, threshold 2): the two arrival orders are permutations of
    one another and carry the same vote counts, the threshold is reached in
    both, and [end_block] selects a different winner in each; in the second
    the winner is not the lexicographically smaller of the two tied
    values. *)
Theorem end_block_tie_follows_arrival_order :
  Permutation done_first unprofitable_first /\
  threshold_reached 2 (collect done_first) = true /\
  threshold_reached 2 (collect unprofitable_first) = true /\
  Permutation (payload_values_count (collect done_first))
              (payload_values_count (collect unprofitable_first)) /\
  winner 2 done_first = Ok (Some "done"%string) /\
  winner 2 unprofitable_first = Ok (Some "unprofitable"%string) /\
  String.ltb "done" "unprofitable" = true.
Proof.
  split.
  { unfold done_first, unprofitable_first.
    apply (Permutation_app_comm [_; _] [_; _]). }
  split; [reflexivity |]. split; [reflexivity |].
  split.
  { apply (Permutation_app_comm [_] [_]). }
  repeat split.
Qed.

End PredictionStateFacts.

(** ** The bet registry *)

Module MarketManagerFacts.
Import Py Bets MarketManager.

(** *** Freshness *)

Lemma all_bets_fresh_true (bets : list Bet) :
  all_bets_fresh bets = true <->
  Forall (fun b => queue_status b = EXPIRED \/ queue_status b = FRESH) bets.
Proof.
  unfold all_bets_fresh. induction bets as [| b r IH]; cbn.
  - split; [constructor | reflexivity].
  - rewrite Forall_cons.
    destruct (decide (queue_status b = EXPIRED)) as [E | E].
    + rewrite (bool_decide_eq_true_2 _ E). cbn. rewrite IH. tauto.
    + rewrite (bool_decide_eq_false_2 _ E). cbn.
      rewrite andb_true_iff, bool_decide_eq_true, IH. tauto.
Qed.

Lemma all_bets_fresh_false (bets : list Bet) :
  all_bets_fresh bets = false <->
  exists b, In b bets /\ queue_status b = TO_PROCESS.
Proof.
  rewrite <- not_true_iff_false, all_bets_fresh_true.
  rewrite <- Exists_Forall_neg by (intros b; destruct (queue_status b); auto;
    right; intros [H | H]; discriminate H).
  rewrite Exists_exists.
  split; intros [b [Hin Hb]]; exists b; (split; [now apply list_elem_of_In |]).
  - cbn in Hb. destruct (queue_status b) eqn:E;
      [exfalso; apply Hb; now left | exfalso; apply Hb; now right | reflexivity].
  - cbn. rewrite Hb. intros [H | H]; discriminate H.
Qed.

(** C9, as the code has it: the freshness check promotes exactly when every
    non-expired bet is FRESH, and then every non-expired bet becomes
    TO_PROCESS while expired bets are left alone; if at least one bet is
    neither expired nor FRESH (it is TO_PROCESS), no bet is changed. *)
Theorem freshness_check_outcome (bets : list Bet) :
  (Forall (fun b => queue_status b = EXPIRED \/ queue_status b = FRESH) bets
   /\ _bet_freshness_check_and_update bets = map promote bets)
  \/ ((exists b, In b bets /\ queue_status b = TO_PROCESS)
      /\ _bet_freshness_check_and_update bets = bets).
Proof.
  unfold _bet_freshness_check_and_update.
  destruct (all_bets_fresh bets) eqn:E.
  - left. split; [now apply all_bets_fresh_true | reflexivity].
  - right. split; [now apply all_bets_fresh_false | reflexivity].
Qed.

(** A promoted bet is TO_PROCESS unless it was expired; nothing but the
    queue status changes. *)
Lemma promote_status (b : Bet) :
  queue_status (promote b)
  = (if decide (queue_status b = EXPIRED) then EXPIRED else TO_PROCESS).
Proof.
  unfold promote. case_bool_decide; case_decide; cbn; congruence.
Qed.

(** C9 as stated fails: the registry holds non-expired FRESH bets, and the
    freshness check changes their queue status. *)
Lemma fresh_bets_do_not_block_promotion :
  (exists b, In b fresh_cohort /\ queue_status b <> EXPIRED
             /\ queue_status b = FRESH) /\
  map queue_status fresh_cohort = [FRESH; FRESH; EXPIRED] /\
  map queue_status (_bet_freshness_check_and_update fresh_cohort)
    = [TO_PROCESS; TO_PROCESS; EXPIRED].
Proof.
  split; [| split; reflexivity].
  exists (example_bet "0xa" 10 FRESH). repeat split; [now left | discriminate].
Qed.

(** *** Merging fetched records *)

Lemma get_bet_idx_Some (bets : list Bet) (k : string) (i : nat) :
  get_bet_idx bets k = Some i ->
  exists b, bets !! i = Some b /\ id b = k.
Proof.
  revert i. induction bets as [| b r IH]; intros i; cbn; [discriminate |].
  case_decide as E.
  - intros [= <-]. exists b. split; [reflexivity | exact E].
  - destruct (get_bet_idx r k) as [j |]; cbn; [| discriminate].
    intros [= <-]. apply (IH j eq_refl).
Qed.

Lemma get_bet_idx_None (bets : list Bet) (k : string) :
  get_bet_idx bets k = None -> forall b, In b bets -> id b <> k.
Proof.
  induction bets as [| b r IH]; cbn; [intros _ ? [] |].
  case_decide as E; [discriminate |].
  destruct (get_bet_idx r k) as [j |]; cbn; [discriminate |].
  intros _ b' [<- | Hin]; [exact E | now apply IH].
Qed.

(** A record whose id is tracked refreshes the market-facing fields of the
    tracked bet in place: the registry keeps its length, the bet keeps its
    position, identity and bookkeeping, and no other position changes. *)
Lemma process_raw_tracked (market : string) (bets : list Bet) (raw : RawBet)
    (i : nat) :
  get_bet_idx bets (raw_id raw) = Some i ->
  exists b,
    bets !! i = Some b /\ id b = raw_id raw /\
    process_raw market bets raw
      = <[i := update_market_info b (new_Bet raw market)]> bets /\
    market_info (update_market_info b (new_Bet raw market))
      = (raw_scaledLiquidityMeasure raw, raw_outcomeTokenAmounts raw,
         raw_openingTimestamp raw, raw_fee raw) /\
    bookkeeping (update_market_info b (new_Bet raw market)) = bookkeeping b.
Proof.
  intros H. destruct (get_bet_idx_Some _ _ _ H) as [b [Hb Hid]].
  exists b. repeat split; try assumption.
  unfold process_raw. cbn. rewrite H.
  apply list_eq. intros j.
  destruct (decide (i = j)) as [<- | Hne].
  - rewrite list_lookup_alter_eq, list_lookup_insert_eq, Hb; [reflexivity |].
    now apply lookup_lt_Some in Hb.
  - now rewrite list_lookup_alter_ne, list_lookup_insert_ne.
Qed.

(** A record whose id is not tracked is appended, with the bookkeeping at
    its defaults. *)
Lemma process_raw_unseen (market : string) (bets : list Bet) (raw : RawBet) :
  get_bet_idx bets (raw_id raw) = None ->
  process_raw market bets raw = bets ++ [new_Bet raw market] /\
  bookkeeping (new_Bet raw market) = (0, 0, 0, Qc_of_Z 0, FRESH).
Proof. intros H. unfold process_raw. cbn. now rewrite H. Qed.

Lemma kept_refl (bets : list Bet) : kept bets bets.
Proof. intros i b H. eauto. Qed.

Lemma kept_trans (b1 b2 b3 : list Bet) : kept b1 b2 -> kept b2 b3 -> kept b1 b3.
Proof.
  intros H12 H23 i b H.
  destruct (H12 i b H) as [b' [H' [Hid Hbk]]].
  destruct (H23 i b' H') as [b'' [H'' [Hid' Hbk']]].
  exists b''. repeat split; congruence.
Qed.

Lemma kept_length (bets bets' : list Bet) :
  kept bets bets' -> (length bets <= length bets')%nat.
Proof.
  intros H. destruct (decide (length bets <= length bets')%nat) as [| Hn]; [assumption |].
  exfalso.
  destruct (lookup_lt_is_Some_2 bets (length bets')) as [b Hb]; [lia |].
  destruct (H _ _ Hb) as [b' [Hb' _]].
  apply lookup_lt_Some in Hb'. lia.
Qed.

Lemma process_raw_kept (market : string) (bets : list Bet) (raw : RawBet) :
  kept bets (process_raw market bets raw) /\
  exists i b', process_raw market bets raw !! i = Some b' /\ id b' = raw_id raw.
Proof.
  destruct (get_bet_idx bets (raw_id raw)) as [i |] eqn:E.
  - destruct (process_raw_tracked market bets raw i E)
      as [b [Hb [Hid [-> [_ Hbk]]]]].
    assert (Hlt : (i < length bets)%nat) by now apply lookup_lt_Some in Hb.
    split.
    + intros j bj Hj. destruct (decide (i = j)) as [<- | Hne].
      * rewrite list_lookup_insert_eq by assumption.
        eexists. split; [reflexivity |].
        assert (bj = b) as -> by congruence. split; [reflexivity | exact Hbk].
      * rewrite list_lookup_insert_ne by assumption. eauto.
    + exists i. eexists. rewrite list_lookup_insert_eq by assumption.
      split; [reflexivity | exact Hid].
  - destruct (process_raw_unseen market bets raw E) as [-> _].
    split.
    + intros j bj Hj. exists bj. split; [| auto].
      now apply lookup_app_l_Some.
    + exists (length bets), (new_Bet raw market).
      split; [| reflexivity].
      rewrite lookup_app_r by lia. now rewrite Nat.sub_diag.
Qed.

Lemma kept_tracked (bets bets' : list Bet) (k : string) :
  kept bets bets' ->
  (exists i b, bets !! i = Some b /\ id b = k) ->
  exists i b, bets' !! i = Some b /\ id b = k.
Proof.
  intros H [i [b [Hb Hid]]].
  destruct (H i b Hb) as [b' [Hb' [Hid' _]]].
  exists i, b'. split; congruence.
Qed.

Lemma process_chunk_kept (market : string) (chunk : option (list RawBet))
    (bets : list Bet) :
  kept bets (_process_chunk market chunk bets) /\
  forall records raw, chunk = Some records -> In raw records ->
    exists i b', _process_chunk market chunk bets !! i = Some b'
                 /\ id b' = raw_id raw.
Proof.
  destruct chunk as [records |]; cbn; [| split; [apply kept_refl | discriminate]].
  revert bets. induction records as [| r rs IH]; intros bets; cbn.
  - split; [apply kept_refl | intros ? ? [= <-] []].
  - destruct (process_raw_kept market bets r) as [Hk Hr].
    destruct (IH (process_raw market bets r)) as [Hk' Hrs].
    split; [eapply kept_trans; eassumption |].
    intros records raw [= <-] [<- | Hin].
    + eapply kept_tracked; eassumption.
    + now apply (Hrs rs raw eq_refl).
Qed.

Lemma merge_kept (fetched : list (string * option (list RawBet))) (bets : list Bet) :
  let merged :=
    fold_left (fun bets mc => _process_chunk (fst mc) (snd mc) bets) fetched bets in
  kept bets merged /\
  forall market records raw,
    In (market, Some records) fetched -> In raw records ->
    exists i b', merged !! i = Some b' /\ id b' = raw_id raw.
Proof.
  revert bets. induction fetched as [| [m c] rest IH]; intros bets; cbn.
  - split; [apply kept_refl | intros ? ? ? []].
  - destruct (process_chunk_kept m c bets) as [Hk Hc].
    destruct (IH (_process_chunk m c bets)) as [Hk' Hrest].
    split; [eapply kept_trans; eassumption |].
    intros market records raw [[= <- ->] | Hin] Hraw.
    + eapply kept_tracked; [exact Hk' |]. now apply (Hc records raw eq_refl).
    + now apply (Hrest market records raw).
Qed.

Lemma map_id_insert (bets : list Bet) (i : nat) (b b' : Bet) :
  bets !! i = Some b -> id b' = id b -> map id (<[i := b']> bets) = map id bets.
Proof.
  revert i. induction bets as [| x r IH]; intros [| i]; cbn; try discriminate.
  - intros [= ->] ->. reflexivity.
  - intros H E. f_equal. now apply IH.
Qed.

(** [get_bet_idx] only reads the ids. *)
Lemma get_bet_idx_ids (bets bets' : list Bet) (k : string) :
  map id bets = map id bets' -> get_bet_idx bets k = get_bet_idx bets' k.
Proof.
  revert bets'. induction bets as [| x r IH]; intros [| y r']; cbn;
    try discriminate; [reflexivity |].
  intros [= -> Hr]. now rewrite (IH r' Hr).
Qed.

Lemma get_bet_idx_app_new (bets : list Bet) (nb : Bet) :
  get_bet_idx bets (id nb) = None ->
  get_bet_idx (bets ++ [nb]) (id nb) = Some (length bets).
Proof.
  induction bets as [| x r IH]; cbn.
  - intros _. now rewrite decide_True.
  - case_decide as E; [discriminate |].
    destruct (get_bet_idx r (id nb)) eqn:Hr; cbn; [discriminate |].
    intros _. now rewrite IH.
Qed.

(** [get_bet_idx] after an append: an id found before is found at the same
    position; an id not found before is found exactly when it is the
    appended bet's, at the new last position. *)
Lemma get_bet_idx_app (bets : list Bet) (nb : Bet) (k : string) :
  get_bet_idx (bets ++ [nb]) k
  = match get_bet_idx bets k with
    | Some i => Some i
    | None => if decide (id nb = k) then Some (length bets) else None
    end.
Proof.
  induction bets as [| x r IH]; cbn.
  - destruct (decide (id nb = k)); reflexivity.
  - destruct (decide (id x = k)) as [E | E]; [reflexivity |]. rewrite IH.
    destruct (get_bet_idx r k) as [i |]; cbn; [reflexivity |].
    destruct (decide (id nb = k)); reflexivity.
Qed.

Lemma last_record_snoc (k : string) (records : list (string * RawBet))
    (r : string * RawBet) :
  last_record k (records ++ [r])
  = if decide (raw_id (snd r) = k) then Some r else last_record k records.
Proof.
  induction records as [| x rest IH]; cbn.
  - reflexivity.
  - rewrite IH. case_decide; [reflexivity |].
    destruct (last_record k rest); reflexivity.
Qed.

(** The last record with an id is a record with that id; there is one as
    soon as some record has the id. *)
Lemma last_record_Some (k : string) (records : list (string * RawBet))
    (r : string * RawBet) :
  last_record k records = Some r -> In r records /\ raw_id (snd r) = k.
Proof.
  induction records as [| x rest IH]; cbn; [discriminate |].
  destruct (last_record k rest) as [r' |].
  - intros [= <-]. destruct (IH eq_refl) as [Hin Hid]. auto.
  - case_decide as E; [| discriminate]. intros [= <-]. auto.
Qed.

Lemma last_record_In (records : list (string * RawBet)) (r : string * RawBet) :
  In r records -> exists r', last_record (raw_id (snd r)) records = Some r'.
Proof.
  induction records as [| x rest IH]; cbn; [intros [] |].
  intros [-> | Hin].
  - destruct (last_record (raw_id (snd r)) rest) as [r' |]; [eauto |].
    rewrite decide_True by reflexivity. eauto.
  - destruct (IH Hin) as [r' ->]. eauto.
Qed.

Lemma fetched_records_In (fetched : list (string * option (list RawBet)))
    (market : string) (raw : RawBet) :
  In (market, raw) (fetched_records fetched)
  <-> exists records, In (market, Some records) fetched /\ In raw records.
Proof.
  unfold fetched_records. rewrite in_flat_map. split.
  - intros [[m [chunk |]] [Hin Hr]]; cbn in Hr; [| destruct Hr].
    apply in_map_iff in Hr as [raw' [[= <- <-] Hraw]]. eauto.
  - intros [records [Hin Hraw]]. exists (market, Some records).
    split; [exact Hin |]. cbn. now apply in_map.
Qed.

(** The loop over the chunks, each merged record by record, is one pass
    over the fetched records. *)
Lemma merge_records_fetched (fetched : list (string * option (list RawBet)))
    (bets : list Bet) :
  fold_left (fun bets mc => _process_chunk (fst mc) (snd mc) bets) fetched bets
  = merge_records (fetched_records fetched) bets.
Proof.
  unfold merge_records. revert bets.
  induction fetched as [| [m c] rest IH]; intros bets; cbn; [reflexivity |].
  rewrite fold_left_app, IH. f_equal.
  destruct c as [chunk |]; cbn; [| reflexivity].
  revert bets. induction chunk as [| r rs IHc]; intros bets; cbn;
    [reflexivity | apply IHc].
Qed.

(** Merging one record leaves every other id where it was. *)
Lemma process_raw_get_bet_idx (market : string) (bets : list Bet) (raw : RawBet)
    (k : string) :
  get_bet_idx (process_raw market bets raw) k
  = match get_bet_idx bets k with
    | Some i => Some i
    | None => if decide (raw_id raw = k) then Some (length bets) else None
    end.
Proof.
  destruct (get_bet_idx bets (raw_id raw)) as [j |] eqn:E.
  - destruct (process_raw_tracked market bets raw j E) as [b [Hb [Hid [-> _]]]].
    rewrite (get_bet_idx_ids _ bets) by now apply (map_id_insert _ _ b).
    destruct (get_bet_idx bets k) as [i |] eqn:Ek; [reflexivity |].
    case_decide as Hk; [| reflexivity]. congruence.
  - destruct (process_raw_unseen market bets raw E) as [-> _].
    apply get_bet_idx_app.
Qed.

(** What one pass over the fetched records leaves in the registry:
    - an id tracked before is still found at the same position, and an id
      first met in the records is found behind the bets tracked before,
      on a bet whose bookkeeping is at its defaults;
    - the bet found under an id that was fetched carries the market-facing
      fields of the last record fetched with that id;
    - a bet is left as it was when no record has its id, or when an
      earlier bet has the same id;
    - every bet tracked before is kept. *)
Lemma merge_records_outcome (records : list (string * RawBet)) (bets : list Bet) :
  (forall k i0, get_bet_idx bets k = Some i0 ->
     get_bet_idx (merge_records records bets) k = Some i0) /\
  (forall k i, get_bet_idx bets k = None ->
     get_bet_idx (merge_records records bets) k = Some i ->
     (length bets <= i)%nat /\
     exists b', merge_records records bets !! i = Some b' /\
                bookkeeping b' = default_bookkeeping) /\
  (forall k market raw, last_record k records = Some (market, raw) ->
     exists i b',
       get_bet_idx (merge_records records bets) k = Some i /\
       merge_records records bets !! i = Some b' /\
       market_info b' = raw_market_info raw) /\
  (forall i b, bets !! i = Some b ->
     get_bet_idx bets (id b) <> Some i \/ last_record (id b) records = None ->
     merge_records records bets !! i = Some b) /\
  kept bets (merge_records records bets).
Proof.
  induction records as [| [m raw] records IH] using rev_ind.
  - cbn. split; [auto |]. split; [congruence |]. split; [discriminate |].
    split; [auto | apply kept_refl].
  - destruct IH as (Htracked & Hnew & Hlast & Hsame & Hkept).
    unfold merge_records in *. rewrite fold_left_app. cbn [fold_left fst snd].
    set (R := fold_left (fun bets r => process_raw (fst r) bets (snd r))
                records bets) in *.
    assert (Hlen : (length bets <= length R)%nat) by now apply kept_length.
    assert (Hstep : forall j c, R !! j = Some c -> id c <> raw_id raw ->
                      process_raw m R raw !! j = Some c).
    { intros j c Hj Hne.
      destruct (get_bet_idx R (raw_id raw)) as [j0 |] eqn:E.
      - destruct (process_raw_tracked m R raw j0 E) as [b [Hb [Hid [-> _]]]].
        rewrite list_lookup_insert_ne; [exact Hj |]. intros ->. congruence.
      - destruct (process_raw_unseen m R raw E) as [-> _].
        now apply lookup_app_l_Some. }
    split; [| split; [| split; [| split]]].
    + intros k i0 Hk. rewrite process_raw_get_bet_idx.
      now rewrite (Htracked k i0 Hk).
    + intros k i Hk. rewrite process_raw_get_bet_idx.
      destruct (get_bet_idx R k) as [i' |] eqn:ER.
      * intros [= <-]. destruct (Hnew k i' Hk ER) as [Hle [b' [Hb' Hbk]]].
        split; [exact Hle |].
        destruct (get_bet_idx R (raw_id raw)) as [j0 |] eqn:E.
        -- destruct (process_raw_tracked m R raw j0 E)
             as [b [Hb [Hid [-> [_ Hbk']]]]].
           destruct (decide (j0 = i')) as [-> | Hne].
           ++ rewrite list_lookup_insert_eq by now apply lookup_lt_Some in Hb.
              eexists. split; [reflexivity |]. congruence.
           ++ rewrite list_lookup_insert_ne by exact Hne. eauto.
        -- destruct (process_raw_unseen m R raw E) as [-> _].
           exists b'. split; [now apply lookup_app_l_Some | exact Hbk].
      * case_decide as Hid; [| discriminate]. intros [= <-].
        split; [exact Hlen |].
        assert (E : get_bet_idx R (raw_id raw) = None) by now rewrite Hid.
        destruct (process_raw_unseen m R raw E) as [-> Hbk].
        exists (new_Bet raw m). split; [| exact Hbk].
        rewrite lookup_app_r by lia. now rewrite Nat.sub_diag.
    + intros k market raw'. rewrite last_record_snoc. cbn [snd].
      case_decide as Hid.
      * intros [= <- <-]. subst k.
        destruct (get_bet_idx R (raw_id raw)) as [j0 |] eqn:E.
        -- pose proof (process_raw_get_bet_idx m R raw (raw_id raw)) as Hg.
           rewrite E in Hg.
           destruct (process_raw_tracked m R raw j0 E)
             as [b [Hb [_ [Hp [Hmi _]]]]].
           exists j0. eexists. split; [exact Hg |]. rewrite Hp.
           rewrite list_lookup_insert_eq by now apply lookup_lt_Some in Hb.
           split; [reflexivity | exact Hmi].
        -- pose proof (process_raw_get_bet_idx m R raw (raw_id raw)) as Hg.
           rewrite E, decide_True in Hg by reflexivity.
           destruct (process_raw_unseen m R raw E) as [Hp _].
           exists (length R), (new_Bet raw m). split; [exact Hg |].
           rewrite Hp, lookup_app_r by lia. rewrite Nat.sub_diag.
           split; reflexivity.
      * intros Hl. destruct (Hlast k market raw' Hl) as [i [b' [Hg [Hb' Hmi]]]].
        exists i, b'. split; [| split; [| exact Hmi]].
        -- rewrite process_raw_get_bet_idx. now rewrite Hg.
        -- apply Hstep; [exact Hb' |].
           destruct (get_bet_idx_Some _ _ _ Hg) as [c [Hc Hcid]]. congruence.
    + intros i b Hb Hcond.
      destruct (decide (raw_id raw = id b)) as [Hid | Hid].
      * assert (Hfirst : get_bet_idx bets (id b) <> Some i).
        { destruct Hcond as [H | H]; [exact H |].
          rewrite last_record_snoc in H. cbn [snd] in H.
          now rewrite decide_True in H by exact Hid. }
        assert (HR : R !! i = Some b) by (apply Hsame; [exact Hb | now left]).
        destruct (get_bet_idx bets (id b)) as [i0 |] eqn:E0.
        -- pose proof (Htracked _ _ E0) as HgR. rewrite <- Hid in HgR.
           destruct (process_raw_tracked m R raw i0 HgR) as [c [Hc [_ [-> _]]]].
           rewrite list_lookup_insert_ne; [exact HR |]. congruence.
        -- exfalso. apply (get_bet_idx_None _ _ E0 b); [| reflexivity].
           apply list_elem_of_In. eapply list_elem_of_lookup_2. exact Hb.
      * apply Hstep; [| congruence].
        apply Hsame; [exact Hb |].
        destruct Hcond as [H | H]; [now left | right].
        rewrite last_record_snoc in H. cbn [snd] in H.
        now rewrite decide_False in H by exact Hid.
    + eapply kept_trans; [exact Hkept |]. apply process_raw_kept.
Qed.

Lemma last_record_None (fetched : list (string * option (list RawBet)))
    (k : string) :
  (forall market records raw,
     In (market, Some records) fetched -> In raw records -> raw_id raw <> k) ->
  last_record k (fetched_records fetched) = None.
Proof.
  intros H.
  destruct (last_record k (fetched_records fetched)) as [[m raw] |] eqn:E;
    [| reflexivity].
  exfalso. apply last_record_Some in E as [Hin Hid].
  apply fetched_records_In in Hin as [records [Hin Hraw]].
  exact (H m records raw Hin Hraw Hid).
Qed.

(** C4, as the code has it: the registry is emptied exactly when the fetch
    status at the end of the loop is anything but SUCCESS (a complete
    failure and a partial one alike). On SUCCESS the registry is the merge
    of the fetched chunks:
    - every bet tracked before is still tracked at the same position with
      its id and bookkeeping, every fetched record's id is tracked, and
      the registry has not shrunk;
    - for every fetched record, the bet found under its id after the
      update carries the market-facing fields of the last record fetched
      with that id; when the id was tracked before, that bet is at the
      position where the id was found before and has the bookkeeping of
      the bet that was there (the refresh is in place); when the id was
      unseen, the bet lies behind the bets tracked before and its
      bookkeeping is at its defaults (it was appended);
    - a bet whose id no fetched record carries, or that is shadowed by an
      earlier bet with the same id, is left exactly as it was.
    Merging one record either refreshes, in place, the market-facing
    fields of the bet that has its id, keeping that bet's bookkeeping, or,
    when the id is unseen, appends a new bet. *)
Theorem update_bets_outcome (fetched : list (string * option (list RawBet)))
    (fetch_status : FetchStatus) (bets : list Bet) :
  (fetch_status <> SUCCESS -> _update_bets fetched fetch_status bets = []) /\
  (fetch_status = SUCCESS ->
   kept bets (_update_bets fetched fetch_status bets) /\
   (length bets <= length (_update_bets fetched fetch_status bets))%nat /\
   (forall market records raw,
      In (market, Some records) fetched -> In raw records ->
      exists i b', _update_bets fetched fetch_status bets !! i = Some b'
                   /\ id b' = raw_id raw) /\
   (forall market records raw,
      In (market, Some records) fetched -> In raw records ->
      exists i b' last_market last_records last,
        last_record (raw_id raw) (fetched_records fetched)
          = Some (last_market, last) /\
        In (last_market, Some last_records) fetched /\ In last last_records /\
        raw_id last = raw_id raw /\
        get_bet_idx (_update_bets fetched fetch_status bets) (raw_id raw)
          = Some i /\
        _update_bets fetched fetch_status bets !! i = Some b' /\
        market_info b' = raw_market_info last /\
        match get_bet_idx bets (raw_id raw) with
        | Some i0 =>
            i = i0 /\
            exists b, bets !! i0 = Some b /\ id b = raw_id raw /\
                      bookkeeping b' = bookkeeping b
        | None =>
            (length bets <= i)%nat /\ bookkeeping b' = default_bookkeeping
        end) /\
   (forall i b,
      bets !! i = Some b ->
      get_bet_idx bets (id b) <> Some i \/
      (forall market records raw,
         In (market, Some records) fetched -> In raw records ->
         raw_id raw <> id b) ->
      _update_bets fetched fetch_status bets !! i = Some b)) /\
  (forall market registry raw,
     match get_bet_idx registry (raw_id raw) with
     | Some i =>
         exists b,
           registry !! i = Some b /\
           process_raw market registry raw
             = <[i := update_market_info b (new_Bet raw market)]> registry /\
           market_info (update_market_info b (new_Bet raw market))
             = (raw_scaledLiquidityMeasure raw, raw_outcomeTokenAmounts raw,
                raw_openingTimestamp raw, raw_fee raw) /\
           bookkeeping (update_market_info b (new_Bet raw market)) = bookkeeping b
     | None =>
         process_raw market registry raw = registry ++ [new_Bet raw market]
     end).
Proof.
  unfold _update_bets. split; [| split].
  - intros H. now rewrite decide_True.
  - intros H. rewrite decide_False by (intros Hn; now apply Hn).
    destruct (merge_kept fetched bets) as [Hk Hf]. cbv zeta in Hk, Hf.
    split; [exact Hk | split; [now apply kept_length | split; [exact Hf |]]].
    rewrite merge_records_fetched in *.
    destruct (merge_records_outcome (fetched_records fetched) bets)
      as (Htracked & Hnew & Hlast & Hsame & _).
    split.
    + intros market records raw Hin Hraw.
      assert (Hrec : In (market, raw) (fetched_records fetched))
        by (apply fetched_records_In; eauto).
      destruct (last_record_In _ _ Hrec) as [[lm last] Hl]. cbn [snd] in Hl.
      destruct (last_record_Some _ _ _ Hl) as [Hlin Hlid]. cbn [snd] in Hlid.
      apply fetched_records_In in Hlin as [lrecords [Hlin Hlraw]].
      destruct (Hlast _ _ _ Hl) as [i [b' [Hg [Hb' Hmi]]]].
      exists i, b', lm, lrecords, last.
      repeat (split; [assumption |]).
      destruct (get_bet_idx bets (raw_id raw)) as [i0 |] eqn:E0.
      * pose proof (Htracked _ _ E0) as Hg0.
        assert (i = i0) as -> by congruence.
        split; [reflexivity |].
        destruct (get_bet_idx_Some _ _ _ E0) as [b [Hb Hbid]].
        exists b. split; [exact Hb | split; [exact Hbid |]].
        destruct (Hk _ _ Hb) as [c [Hc [_ Hbk]]]. congruence.
      * destruct (Hnew _ _ E0 Hg) as [Hle [c [Hc Hbk]]].
        split; [exact Hle | congruence].
    + intros i b Hb [Hfirst | Hnone]; apply Hsame; auto.
      right. now apply last_record_None.
  - intros market registry raw.
    destruct (get_bet_idx registry (raw_id raw)) as [i |] eqn:E.
    + destruct (process_raw_tracked market registry raw i E)
        as [b [Hb [_ [Hp [Hm Hbk]]]]].
      exists b. auto.
    + now destruct (process_raw_unseen market registry raw E).
Qed.

Lemma update_bets_outcome_witness :
  _update_bets example_fetch FAILURE fresh_cohort = [] /\
  map id (_update_bets example_fetch SUCCESS fresh_cohort)
    = ["0xa"; "0xb"; "0xc"; "0xd"]%string /\
  (length fresh_cohort
   <= length (_update_bets example_fetch SUCCESS fresh_cohort))%nat /\
  (exists b',
     _update_bets refetch SUCCESS fresh_cohort !! 0%nat = Some b' /\
     market_info b' = (Qc_of_Z 15, [4; 3], 2000700, 2) /\
     bookkeeping b' = bookkeeping (example_bet "0xa" 10 FRESH)) /\
  _update_bets refetch SUCCESS fresh_cohort !! 1%nat
    = Some (example_bet "0xb" 5 FRESH).
Proof.
  destruct (update_bets_outcome example_fetch FAILURE fresh_cohort) as [Hf _].
  destruct (update_bets_outcome example_fetch SUCCESS fresh_cohort) as [_ [Hs _]].
  destruct (update_bets_outcome refetch SUCCESS fresh_cohort) as [_ [Hr _]].
  destruct (Hr eq_refl) as (_ & _ & _ & Hrefresh & Hsame).
  split; [apply Hf; discriminate | split; [reflexivity |]].
  split; [apply (Hs eq_refl) |].
  split.
  - destruct (Hrefresh "omen"%string
                [mkRaw "0xa" 2000500 (Qc_of_Z 12) [2; 3] 2;
                 mkRaw "0xd" 2000900 (Qc_of_Z 4) [1; 1] 2]
                (mkRaw "0xa" 2000500 (Qc_of_Z 12) [2; 3] 2))
      as (i & b' & lm & lrecords & last & Hl & _ & _ & _ & _ & Hb' & Hmi & Hpos);
      [now left | now left |].
    injection Hl as <- <-.
    destruct Hpos as [-> [b [Hb [_ Hbk]]]].
    injection Hb as <-.
    exists b'. split; [exact Hb' | split; [exact Hmi | exact Hbk]].
  - apply (Hsame 1%nat (example_bet "0xb" 5 FRESH)); [reflexivity |].
    right. intros market records raw Hin Hraw Hid.
    destruct Hin as [[= <- <-] | [[=] | [[= <- <-] | []]]];
      cbn in Hraw; intuition (subst; discriminate).
Defined.

(** C4 as stated fails on a partially failed fetch: the status is neither
    SUCCESS nor a complete failure, a chunk was fetched and merged, and the
    registry is emptied all the same. *)
Lemma partial_fetch_clears_registry :
  PARTIAL <> FAILURE /\
  fresh_cohort <> [] /\
  _update_bets example_fetch PARTIAL fresh_cohort = [].
Proof. repeat split; discriminate. Qed.

End MarketManagerFacts.

(** ** The strategy entry point *)

Module SupafundTraderFacts.
Import Py SupafundTrader.

Local Open Scope string_scope.

Lemma append_assoc (a b c : string) : (a +:+ b) +:+ c = a +:+ (b +:+ c).
Proof.
  induction a as [| x a IH]; [reflexivity |].
  change (String x ((a +:+ b) +:+ c) = String x (a +:+ (b +:+ c))).
  now rewrite IH.
Qed.

Lemma append_empty_r (s : string) : s +:+ "" = s.
Proof.
  induction s as [| x s IH]; [reflexivity |].
  change (String x (s +:+ "") = String x s). now rewrite IH.
Qed.

Lemma occurs_in_refl (s : string) : occurs_in s s.
Proof.
  exists "", "". change (s = s +:+ ""). now rewrite append_empty_r.
Qed.

Lemma occurs_in_prepend (s t p : string) : occurs_in s t -> occurs_in s (p +:+ t).
Proof.
  intros [b [a ->]]. exists (p +:+ b), a. now rewrite append_assoc.
Qed.

Lemma occurs_in_append (s t q : string) : occurs_in s t -> occurs_in s (t +:+ q).
Proof.
  intros [b [a ->]]. exists b, (a +:+ q). now rewrite !append_assoc.
Qed.

(** Every item of a joined list occurs in the result. *)
Lemma occurs_in_join (sep : string) (l : list string) (s : string) :
  In s l -> occurs_in s (join sep l).
Proof.
  induction l as [| x r IH]; [intros [] |].
  intros Hin. cbn. destruct r as [| y r'].
  - destruct Hin as [<- | []]. apply occurs_in_refl.
  - destruct Hin as [<- | Hin].
    + apply occurs_in_append, occurs_in_refl.
    + apply occurs_in_prepend, occurs_in_prepend, IH, Hin.
Qed.

Lemma occurs_in_repr_list (l : list string) (s : string) :
  In s l -> occurs_in (repr_str s) (repr_list l).
Proof.
  intros H. unfold repr_list.
  apply occurs_in_prepend, occurs_in_append, occurs_in_join.
  now apply in_map.
Qed.

Lemma is_missing_default (kwargs : gmap string value) (field : string) :
  is_missing kwargs field <-> default VNone (kwargs !! field) = VNone.
Proof.
  unfold is_missing. destruct (kwargs !! field) as [v |]; cbn.
  - split; [intros [H | [= ->]]; [discriminate | reflexivity] | intros ->; now right].
  - split; [reflexivity | now left].
Qed.

(** [check_missing_fields] returns exactly the missing fields among those
    it iterates over. *)
Lemma check_missing_fields_In (order : list string) (kwargs : gmap string value)
    (field : string) :
  In field (check_missing_fields order kwargs)
  <-> In field order /\ is_missing kwargs field.
Proof.
  unfold check_missing_fields.
  now rewrite filter_In, bool_decide_eq_true, is_missing_default.
Qed.

(** C10: whatever the iteration order of the required fields and whatever
    the other arguments, a call in which a required field is absent or
    [None] returns, without raising, a zero bet amount, zero probabilities
    and confidence, no info, and one error message in which every missing
    required field is named. *)
Theorem run_reports_missing_fields (order : list string)
    (int_one_percent : Z -> result Z)
    (float_sizing : value -> value -> result (option Z))
    (str_int : Z -> string)
    (kwargs : gmap string value) :
  Permutation order REQUIRED_FIELDS ->
  (exists field, In field REQUIRED_FIELDS /\ is_missing kwargs field) ->
  exists message,
    run order int_one_percent float_sizing str_int kwargs
      = Ok (mkOutput 0 (Qc_of_Z 0) (Qc_of_Z 0) (Qc_of_Z 0) [] [message]) /\
    forall field, In field REQUIRED_FIELDS -> is_missing kwargs field ->
      occurs_in (repr_str field) message.
Proof.
  intros Hperm [field0 [Hreq0 Hmiss0]].
  assert (Hin0 : In field0 (check_missing_fields order kwargs)).
  { apply check_missing_fields_In. split; [| exact Hmiss0].
    eapply Permutation_in; [symmetry; exact Hperm | exact Hreq0]. }
  eexists. split.
  - unfold run. rewrite bool_decide_eq_true_2; [reflexivity |].
    destruct (check_missing_fields order kwargs); [destruct Hin0 | cbn; lia].
  - intros field Hreq Hmiss.
    apply occurs_in_prepend, occurs_in_append, occurs_in_repr_list.
    apply check_missing_fields_In. split; [| exact Hmiss].
    eapply Permutation_in; [symmetry; exact Hperm | exact Hreq].
Qed.

Lemma run_reports_missing_fields_witness :
  Permutation REQUIRED_FIELDS REQUIRED_FIELDS /\
  (exists field, In field REQUIRED_FIELDS /\ is_missing example_kwargs field) /\
  exists message,
    run REQUIRED_FIELDS (fun _ => Ok 0) (fun _ _ => Ok None) (fun _ => "")
        example_kwargs
      = Ok (mkOutput 0 (Qc_of_Z 0) (Qc_of_Z 0) (Qc_of_Z 0) [] [message]) /\
    forall field, In field REQUIRED_FIELDS -> is_missing example_kwargs field ->
      occurs_in (repr_str field) message.
Proof.
  assert (H : exists field,
             In field REQUIRED_FIELDS /\ is_missing example_kwargs field).
  { exists "bankroll". split; [now left | now left]. }
  split; [reflexivity | split; [exact H |]].
  apply (run_reports_missing_fields REQUIRED_FIELDS (fun _ => Ok 0)
           (fun _ _ => Ok None) (fun _ => "") example_kwargs);
    [reflexivity | exact H].
Defined.

(** The message of the example call: [bankroll] is absent and [bet_fee] is
    [None]. *)
Example run_example_message :
  run REQUIRED_FIELDS (fun _ => Ok 0) (fun _ _ => Ok None) (fun _ => "")
    example_kwargs
  = Ok (mkOutput 0 (Qc_of_Z 0) (Qc_of_Z 0) (Qc_of_Z 0) []
          ["Required kwargs ['bankroll', 'bet_fee'] were not provided for supafund_trader."]).
Proof. vm_compute. reflexivity. Qed.

End SupafundTraderFacts.

(** ** The prediction step *)

Module PredictionFacts.
Import Py Rounds Prediction.


(** A result whose prediction is "ERROR" or whose confidence is a number
    that is at most zero is rejected. *)
Lemma error_or_no_confidence_rejected (res : prediction_dict) :
  res !! "prediction"%string = Some (VStr "ERROR")
  \/ (exists q, number (confidence_of res) = Some q /\ (q <= Qc_of_Z 0)%Qc) ->
  rejected res.
Proof.
  intros [H | [q [Hq Hle]]].
  - left. rewrite H. discriminate.
  - right. exists q. split; [exact Hq |].
    eapply Qcle_trans; [exact Hle | discriminate].
Qed.

(** An optional string passes the truthiness test exactly when it is a
    non-empty string. *)
Lemma falsy_false (s : option string) :
  falsy s = false <-> exists v, s = Some v /\ v <> EmptyString.
Proof.
  destruct s as [v |]; cbn.
  - rewrite bool_decide_eq_false. split.
    + intros H. now exists v.
    + now intros [w [[= <-] H]].
  - split; [discriminate | now intros [v [H _]]].
Qed.

(** The predictor is built exactly when the three credentials are
    configured and both client constructors accept them. *)
Lemma SupafundPredictor_init_Ok (env : Env)
    (create_client : string -> string -> result unit)
    (OpenAI : string -> result unit) :
  SupafundPredictor_init env create_client OpenAI = Ok tt
  <-> exists url key api_key,
        NEXT_PUBLIC_SUPABASE_URL env = Some url /\ url <> EmptyString /\
        SUPABASE_SERVICE_ROLE_KEY env = Some key /\ key <> EmptyString /\
        OPENAI_API_KEY env = Some api_key /\ api_key <> EmptyString /\
        create_client url key = Ok tt /\ OpenAI api_key = Ok tt.
Proof.
  unfold SupafundPredictor_init, SupafundClient_init, LLMClient_init.
  destruct env as [url key api_key];
    cbn [NEXT_PUBLIC_SUPABASE_URL SUPABASE_SERVICE_ROLE_KEY OPENAI_API_KEY].
  split.
  - intros H.
    destruct (falsy url) eqn:Eu; [discriminate H |].
    destruct (falsy key) eqn:Ek; [discriminate H |].
    apply falsy_false in Eu as [u [-> Hu]]. apply falsy_false in Ek as [k [-> Hk]].
    cbn in H.
    destruct (create_client u k) as [[] | e] eqn:Ec; [| discriminate H].
    cbn in H.
    destruct (falsy api_key) eqn:Ea; [discriminate H |].
    apply falsy_false in Ea as [a [-> Ha]]. cbn in H.
    destruct (OpenAI a) as [[] | e] eqn:Eo; [| discriminate H].
    exists u, k, a. repeat split; assumption.
  - intros (u & k & a & -> & Hu & -> & Hk & -> & Ha & Hc & Ho).
    cbn. rewrite !bool_decide_eq_false_2 by assumption.
    cbn. rewrite Hc. cbn. rewrite Ho. reflexivity.
Qed.





(** The predictor also raises, whatever the question, when a credential is
    not configured. *)
Lemma missing_credentials_raise
    (create_client : string -> string -> result unit)
    (OpenAI : string -> result unit)
    (pipeline : string -> string -> prediction_dict + string)
    (agent_address question : string) :
  async_act (mkEnv None None None) create_client OpenAI pipeline
    agent_address question
  = Raise ValueError.
Proof. reflexivity. Qed.

(** And it raises, whatever the question, when a client constructor
    rejects the configured credentials: the exception of the constructor
    leaves the step. *)
Lemma rejected_credentials_raise
    (OpenAI : string -> result unit)
    (pipeline : string -> string -> prediction_dict + string)
    (agent_address question : string) :
  async_act example_env rejecting_create_client OpenAI pipeline
    agent_address question
  = Raise (LibraryError "SupabaseException").
Proof. reflexivity. Qed.

End PredictionFacts.

(** ** The list built-ins *)

Module PyFacts.
Import Py.

Lemma Zltb_strict_total : strict_total Zltb.
Proof.
  unfold Zltb. split.
  - intros x. apply bool_decide_eq_false_2. lia.
  - intros x y z. rewrite !bool_decide_eq_true. lia.
  - intros x y. rewrite !bool_decide_eq_true. lia.
Qed.

Lemma Qcltb_strict_total : strict_total Qcltb.
Proof.
  unfold Qcltb. split.
  - intros x. apply bool_decide_eq_false_2. apply (irreflexivity Qclt).
  - intros x y z. rewrite !bool_decide_eq_true. apply Qclt_trans.
  - intros x y. rewrite !bool_decide_eq_true.
    destruct (Qclt_le_dec x y) as [H | H]; [now left | right].
    destruct (Qcle_lt_or_eq _ _ H) as [H' | H']; [now right | now left].
Qed.

(** The order on tuples is a strict total order when the orders on the
    components are. *)
Lemma tuple_lt_strict_total {A B : Type} `{EqDecision A}
    (ltA : A -> A -> bool) (ltB : B -> B -> bool) :
  strict_total ltA -> strict_total ltB -> strict_total (tuple_lt ltA ltB).
Proof.
  intros [iA tA oA] [iB tB oB]. unfold tuple_lt. split.
  - intros [a b]. cbn. rewrite decide_True by reflexivity. apply iB.
  - intros [a1 b1] [a2 b2] [a3 b3]. cbn.
    intros H1 H2.
    repeat case_decide; subst; try congruence; eauto.
    pose proof (tA _ _ _ H1 H2) as H13. now rewrite iA in H13.
  - intros [a1 b1] [a2 b2]. cbn.
    destruct (decide (a1 = a2)) as [-> | Hne].
    + rewrite decide_True by reflexivity.
      destruct (oB b1 b2) as [H | [-> | H]]; auto.
    + rewrite (decide_False (P := a2 = a1)) by congruence.
      destruct (oA a1 a2) as [H | [H | H]]; auto.
Qed.

Section SortFacts.
Context {A K : Type} (ltb : K -> K -> bool) (key : A -> K).
Hypothesis order : strict_total ltb.

Lemma lt_asym (x y : K) : ltb x y = true -> ltb y x = false.
Proof.
  intros H. destruct (ltb y x) eqn:E; [| reflexivity].
  pose proof (lt_trans ltb order _ _ _ H E) as Hxx.
  now rewrite (lt_irrefl ltb order) in Hxx.
Qed.

(** [x >= y] and [y >= z] give [x >= z]. *)
Lemma not_lt_trans (x y z : K) :
  ltb x y = false -> ltb y z = false -> ltb x z = false.
Proof.
  intros Hxy Hyz. destruct (ltb x z) eqn:E; [| reflexivity].
  destruct (lt_total ltb order x y) as [H | [-> | H]]; [congruence | congruence |].
  destruct (lt_total ltb order y z) as [H' | [<- | H']]; [congruence | congruence |].
  pose proof (lt_trans ltb order _ _ _ H' H) as Hzx.
  pose proof (lt_asym _ _ E). congruence.
Qed.

Lemma insert_reverse_In (x y : A) (s : list A) :
  In y (insert_reverse ltb key x s) <-> y = x \/ In y s.
Proof.
  induction s as [| z r IH]; cbn; [intuition |].
  destruct (ltb (key x) (key z)); cbn; rewrite ?IH; intuition.
Qed.

(** Sorting keeps the items. *)
Lemma sort_reverse_In (y : A) (l : list A) :
  In y (sort_reverse ltb key l) <-> In y l.
Proof.
  induction l as [| x r IH]; cbn; [reflexivity |].
  rewrite insert_reverse_In, IH. intuition.
Qed.

(** The first item after sorting is an item of the list, and no item has
    a larger key. *)
Lemma sort_reverse_head (l : list A) (h : A) (t : list A) :
  sort_reverse ltb key l = h :: t ->
  In h l /\ forall y, In y l -> ltb (key h) (key y) = false.
Proof.
  intros Hs. split.
  { apply sort_reverse_In. rewrite Hs. now left. }
  revert h t Hs. induction l as [| x r IH]; intros h t; cbn; [discriminate |].
  destruct (sort_reverse ltb key r) as [| h' t'] eqn:E; cbn.
  - intros [= <- <-] y [<- | Hy]; [apply (lt_irrefl ltb order) |].
    apply sort_reverse_In in Hy. rewrite E in Hy. destruct Hy.
  - specialize (IH h' t' eq_refl).
    destruct (ltb (key x) (key h')) eqn:Hlt.
    + intros [= <- <-] y [<- | Hy]; [now apply lt_asym | now apply IH].
    + intros [= <- <-] y [<- | Hy]; [apply (lt_irrefl ltb order) |].
      eapply not_lt_trans; [exact Hlt | now apply IH].
Qed.

Lemma sort_reverse_first (l : list A) :
  l <> [] ->
  exists h, getitem (sort_reverse ltb key l) 0 = Ok h /\
            In h l /\ forall y, In y l -> ltb (key h) (key y) = false.
Proof.
  intros Hne. destruct (sort_reverse ltb key l) as [| h t] eqn:E.
  - destruct l as [| x r]; [congruence |].
    assert (Hx : In x (sort_reverse ltb key (x :: r)))
      by (apply sort_reverse_In; now left).
    rewrite E in Hx. destruct Hx.
  - exists h. split; [reflexivity |]. eapply sort_reverse_head; eassumption.
Qed.
End SortFacts.

(** [index] finds every item that is in the list. *)
Lemma index_In {A : Type} `{EqDecision A} (x : A) (l : list A) :
  In x l -> exists i, index x l = Ok i /\ l !! i = Some x.
Proof.
  induction l as [| y r IH]; cbn; [intros [] |].
  intros Hin. case_decide as E.
  - exists 0%nat. subst. split; reflexivity.
  - destruct Hin as [-> | Hin]; [congruence |].
    destruct (IH Hin) as [i [Hi Hl]]. exists (S i). rewrite Hi. split; [reflexivity | exact Hl].
Qed.

(** [min] of a non-empty list is one of its items and a lower bound. *)
Lemma min_list_spec (l : list Z) :
  l <> [] ->
  exists m, min_list l = Ok m /\ In m l /\ forall x, In x l -> m <= x.
Proof.
  induction l as [| x r IH]; [congruence |]. intros _.
  destruct r as [| y r'].
  - exists x. cbn. split; [reflexivity | split; [now left |]].
    intros ? [<- | []]. lia.
  - destruct IH as [m [Hm [Hin Hle]]]; [discriminate |].
    change (min_list (x :: y :: r'))
      with (let? m := min_list (y :: r') in
            Ok (if bool_decide (m < x) then m else x)).
    rewrite Hm. cbn [bind].
    eexists. split; [reflexivity |].
    case_bool_decide.
    + split; [now right |]. intros z [<- | Hz]; [lia | now apply Hle].
    + split; [now left |]. intros z [<- | Hz]; [lia |].
      specialize (Hle z Hz). lia.
Qed.

End PyFacts.

(** ** Sampling *)

Module SamplingFacts.
Import Py PyFacts Bets Sampling.

Lemma new_key_lt_strict_total : strict_total new_key_lt.
Proof.
  apply tuple_lt_strict_total;
    [apply Qcltb_strict_total | apply Zltb_strict_total].
Qed.

Lemma priority_key_lt_strict_total : strict_total priority_key_lt.
Proof.
  repeat apply tuple_lt_strict_total;
    try apply Qcltb_strict_total; apply Zltb_strict_total.
Qed.

Lemma Qcltb_false (x y : Qc) : Qcltb x y = false <-> (y < x)%Qc \/ y = x.
Proof.
  unfold Qcltb. rewrite bool_decide_eq_false. split.
  - intros H. apply Qcnot_lt_le in H.
    destruct (Qcle_lt_or_eq _ _ H); auto.
  - intros [H | ->]; [apply Qcle_not_lt, Qclt_le_weak, H |].
    apply (irreflexivity Qclt).
Qed.

(** The tuple comparison of the new-bet keys, spelled out. *)
Lemma new_key_lt_false (b c : Bet) :
  new_key_lt (new_key b) (new_key c) = false <-> new_rank_ge b c.
Proof.
  unfold new_key_lt, new_key, tuple_lt, new_rank_ge. cbn.
  case_decide as E.
  - unfold Zltb. rewrite bool_decide_eq_false. split.
    + intros H. right. split; [now symmetry | lia].
    + intros [H | [_ H]]; [| lia].
      rewrite E in H. now apply (irreflexivity Qclt) in H.
  - rewrite Qcltb_false. split.
    + intros [H | H]; [now left | congruence].
    + intros [H | [H _]]; [now left | congruence].
Qed.

(** The tuple comparison of the priority keys, spelled out. *)
Lemma priority_key_lt_false (b c : Bet) :
  priority_key_lt (priority_key b) (priority_key c) = false
  <-> priority_rank_ge b c.
Proof.
  unfold priority_rank_ge. rewrite <- new_key_lt_false.
  unfold priority_key_lt, priority_key, new_key_lt, new_key.
  unfold tuple_lt at 1. cbn [fst snd].
  case_decide as E.
  - unfold tuple_lt at 1. cbn [fst snd].
    case_decide as E'.
    + split.
      * intros H. right. split; [now symmetry |]. right. split; [lia | exact H].
      * intros [H | [_ [H | [_ H]]]]; [| lia | exact H].
        rewrite E in H. now apply (irreflexivity Qclt) in H.
    + unfold Zltb. rewrite bool_decide_eq_false. split.
      * intros H. right. split; [now symmetry |]. left. lia.
      * intros [H | [_ [H | [H _]]]]; [| lia | lia].
        rewrite E in H. now apply (irreflexivity Qclt) in H.
  - rewrite Qcltb_false. split.
    + intros [H | H]; [now left | congruence].
    + intros [H | [H _]]; [now left | congruence].
Qed.

(** [_sampled_bet_idx] on a non-empty list of bets of the registry returns
    the position of one of them: when some of them are new, a new bet that
    no new bet outranks; otherwise a bet of the least queue number that no
    other bet of that queue number outranks. *)
Lemma sampled_bet_idx_spec (st : State) (eligible : list Bet) :
  eligible <> [] ->
  (forall b, In b eligible -> In b (bets st)) ->
  exists idx b,
    _sampled_bet_idx st eligible = Ok idx /\
    bets st !! idx = Some b /\ In b eligible /\
    match List.filter (fun bet => bool_decide (processed_timestamp bet = 0)) eligible with
    | _ :: _ =>
        processed_timestamp b = 0 /\
        forall c, In c eligible -> processed_timestamp c = 0 -> new_rank_ge b c
    | [] =>
        (forall c, In c eligible -> queue_no b <= queue_no c) /\
        forall c, In c eligible -> queue_no c = queue_no b -> priority_rank_ge b c
    end.
Proof.
  intros Hne Hsub. unfold _sampled_bet_idx.
  destruct (min_list_spec (map queue_no eligible)) as [m [Hm [Hin Hle]]].
  { destruct eligible; [congruence | discriminate]. }
  rewrite Hm. cbn [bind].
  destruct (List.filter (fun bet => bool_decide (processed_timestamp bet = 0)) eligible)
    as [| n ns] eqn:Hnew.
  - (* no new bet: the priority bets are sorted *)
    set (priority := List.filter (fun bet => bool_decide (queue_no bet = m)) eligible).
    assert (Hp : priority <> []).
    { apply in_map_iff in Hin. destruct Hin as [e [He Hine]].
      assert (In e priority)
        by (apply filter_In; split; [exact Hine | now apply bool_decide_eq_true]).
      intros Hnil. rewrite Hnil in *. contradiction. }
    destruct (sort_reverse_first priority_key_lt priority_key
                priority_key_lt_strict_total priority Hp) as [h [Hh [Hhin Hmax]]].
    unfold first. rewrite Hh. cbn [bind].
    apply filter_In in Hhin. destruct Hhin as [Hhe Hhq].
    apply bool_decide_eq_true in Hhq.
    destruct (index_In h (bets st) (Hsub h Hhe)) as [i [Hi Hl]].
    exists i, h. repeat split; try assumption.
    + intros c Hc. rewrite Hhq. apply Hle. now apply in_map.
    + intros c Hc Hq. apply priority_key_lt_false, Hmax.
      apply filter_In. split; [exact Hc |].
      apply bool_decide_eq_true. congruence.
  - (* some new bets: they are sorted *)
    destruct (sort_reverse_first new_key_lt new_key new_key_lt_strict_total
                (n :: ns)) as [h [Hh [Hhin Hmax]]]; [discriminate |].
    unfold first. rewrite Hh. cbn [bind].
    rewrite <- Hnew in Hhin, Hmax.
    apply filter_In in Hhin. destruct Hhin as [Hhe Hhp].
    apply bool_decide_eq_true in Hhp.
    destruct (index_In h (bets st) (Hsub h Hhe)) as [i [Hi Hl]].
    exists i, h. repeat split; try assumption.
    intros c Hc Hp. apply new_key_lt_false, Hmax.
    apply filter_In. split; [exact Hc | now apply bool_decide_eq_true].
Qed.

(** [_sample] never raises: it returns nothing when no bet is processable,
    and otherwise what [sampled] makes of the pick of [_sampled_bet_idx]. *)
Lemma sample_spec (params : Params) (now : Z) (st : State) :
  let eligible := List.filter (processable_bet params now st) (bets st) in
  (eligible = [] /\ _sample params now st = Ok (None, st))
  \/ (eligible <> [] /\
      exists idx b,
        _sampled_bet_idx st eligible = Ok idx /\
        bets st !! idx = Some b /\ In b eligible /\
        _sample params now st = Ok (sampled st idx b)).
Proof.
  intros eligible. unfold _sample. fold eligible.
  destruct eligible as [| e es] eqn:E.
  - left. split; reflexivity.
  - right. split; [discriminate |].
    destruct (sampled_bet_idx_spec st (e :: es)) as [idx [b [Hidx [Hb [Hin _]]]]].
    { discriminate. }
    { intros b Hb. rewrite <- E in Hb. unfold eligible in Hb.
      now apply filter_In in Hb. }
    exists idx, b. repeat split; try assumption.
    rewrite bool_decide_eq_false_2 by (cbn; lia).
    rewrite Hidx. cbn [bind]. unfold getitem. rewrite Hb. cbn [bind].
    unfold sampled. now case_bool_decide.
Qed.

(** A returned index is the position of a processable bet with non-zero
    liquidity. *)
Lemma sample_returns_processable (params : Params) (now : Z) (st st' : State)
    (idx : nat) :
  _sample params now st = Ok (Some idx, st') ->
  exists b, bets st !! idx = Some b /\
            processable_bet params now st b = true /\
            scaledLiquidityMeasure b <> Qc_of_Z 0.
Proof.
  intros H.
  destruct (sample_spec params now st) as [[_ Hs] | [_ [i [b [_ [Hb [Hin Hs]]]]]]];
    rewrite Hs in H; [discriminate |].
  unfold sampled in H. case_bool_decide as Hl; [discriminate |].
  injection H as <- _. exists b.
  apply filter_In in Hin. tauto.
Qed.

(** A processable bet lies inside the safe voting range. *)
Lemma processable_within_safe_range (params : Params) (now : Z) (st : State) (b : Bet) :
  processable_bet params now st b = true ->
  now < openingTimestamp b - opening_margin params - safe_voting_range params.
Proof.
  unfold processable_bet. intros H.
  destruct (xorb _ _); [discriminate |].
  destruct (negb (should_rebet st));
    apply andb_true_iff in H; destruct H as [H _];
    apply andb_true_iff in H; destruct H as [_ H];
    now apply bool_decide_eq_true in H.
Qed.

(** The general form of C6, for [_sample] in any state. *)
Lemma sample_new_bets (params : Params) (now : Z) (st : State) :
  let eligible := List.filter (processable_bet params now st) (bets st) in
  (exists n, In n eligible /\ processed_timestamp n = 0) ->
  exists idx b,
    _sampled_bet_idx st eligible = Ok idx /\
    bets st !! idx = Some b /\
    In b eligible /\ processed_timestamp b = 0 /\
    (forall c, In c eligible -> processed_timestamp c = 0 -> new_rank_ge b c) /\
    _sample params now st = Ok (sampled st idx b).
Proof.
  cbv zeta. intros [n [Hn Hpn]].
  destruct (sample_spec params now st) as [[Hnil _] | [Hne [idx [b [Hidx [Hb [Hin Hs]]]]]]].
  { rewrite Hnil in Hn. destruct Hn. }
  destruct (sampled_bet_idx_spec st _ Hne) as [idx' [b' [Hidx' [Hb' [_ Hrank]]]]].
  { intros c Hc. now apply filter_In in Hc. }
  assert (idx' = idx) as -> by congruence.
  assert (b' = b) as -> by congruence.
  exists idx, b.
  destruct (List.filter (fun bet => bool_decide (processed_timestamp bet = 0)) _)
    as [| x xs] eqn:Hnew.
  - assert (Hx : In n []) by
      (rewrite <- Hnew; apply filter_In; split;
       [exact Hn | now apply bool_decide_eq_true]).
    destruct Hx.
  - destruct Hrank as [Hp Hmax]. repeat split; assumption.
Qed.

(** The general form of C7, for [_sample] in any state. *)
Lemma sample_retry_bets (params : Params) (now : Z) (st : State) :
  let eligible := List.filter (processable_bet params now st) (bets st) in
  eligible <> [] ->
  (forall c, In c eligible -> processed_timestamp c <> 0) ->
  exists idx b,
    _sampled_bet_idx st eligible = Ok idx /\
    bets st !! idx = Some b /\
    In b eligible /\
    (forall c, In c eligible -> queue_no b <= queue_no c) /\
    (forall c, In c eligible -> queue_no c = queue_no b -> priority_rank_ge b c) /\
    _sample params now st = Ok (sampled st idx b).
Proof.
  cbv zeta. intros Hne Hold.
  destruct (sample_spec params now st) as [[Hnil _] | [_ [idx [b [Hidx [Hb [Hin Hs]]]]]]];
    [contradiction |].
  destruct (sampled_bet_idx_spec st _ Hne) as [idx' [b' [Hidx' [Hb' [_ Hrank]]]]].
  { intros c Hc. now apply filter_In in Hc. }
  assert (idx' = idx) as -> by congruence.
  assert (b' = b) as -> by congruence.
  exists idx, b.
  destruct (List.filter (fun bet => bool_decide (processed_timestamp bet = 0)) _)
    as [| x xs] eqn:Hnew.
  - destruct Hrank as [Hq Hmax]. repeat split; assumption.
  - assert (Hx : In x (x :: xs)) by now left.
    rewrite <- Hnew in Hx. apply filter_In in Hx. destruct Hx as [Hx Hp].
    apply bool_decide_eq_true in Hp. now apply Hold in Hx.
Qed.

(** Among bets of equal invested amount, a bet that none outranks has the
    smallest processed timestamp. *)
Lemma priority_rank_ge_equal_invested (b c : Bet) :
  priority_rank_ge b c -> invested_amount c = invested_amount b ->
  processed_timestamp b <= processed_timestamp c.
Proof.
  intros [H | [_ [H | [H _]]]] E; [| lia | lia].
  rewrite E in H. now apply (irreflexivity Qclt) in H.
Qed.

(** Among new bets, a bet that none outranks has the highest liquidity. *)
Lemma new_rank_ge_liquidity (b c : Bet) :
  new_rank_ge b c -> (scaledLiquidityMeasure c <= scaledLiquidityMeasure b)%Qc.
Proof.
  intros [H | [-> _]]; [now apply Qclt_le_weak | apply Qcle_refl].
Qed.

(** C6: whenever some eligible bet has never been processed, [select]
    picks, among all the eligible never-processed bets whatever their queue
    number, one that none of them outranks in the descending order on
    (liquidity, opening time); it returns the position of that bet in the
    registry (and records its liquidity) unless the liquidity of the pick is
    exactly zero, in which case the pick is rejected and nothing is
    returned. *)
Theorem select_picks_most_liquid_new_bet (random_random : string -> Qc)
    (params : Params) (now : Z) (stored : list Bet) (cache : gmap string Qc)
    (randomness_seed : string) :
  let st := setup random_random params stored cache randomness_seed in
  let eligible := List.filter (processable_bet params now st) stored in
  (exists n, In n eligible /\ processed_timestamp n = 0) ->
  exists idx b,
    _sampled_bet_idx st eligible = Ok idx /\
    stored !! idx = Some b /\
    In b eligible /\ processed_timestamp b = 0 /\
    (forall c, In c eligible -> processed_timestamp c = 0 -> new_rank_ge b c) /\
    (forall c, In c eligible -> processed_timestamp c = 0 ->
       (scaledLiquidityMeasure c <= scaledLiquidityMeasure b)%Qc) /\
    select random_random params now stored cache randomness_seed
      = Ok (sampled st idx b).
Proof.
  intros st eligible H.
  destruct (sample_new_bets params now st H)
    as [idx [b [Hidx [Hb [Hin [Hp [Hmax Hs]]]]]]].
  exists idx, b. repeat split; try assumption.
  intros c Hc Hpc. apply new_rank_ge_liquidity. now apply Hmax.
Qed.

(** Of the two eligible never-bet bets with liquidities 5 and 10, the
    second, which is also the one in the higher queue, is returned. *)
Lemma select_picks_most_liquid_new_bet_witness :
  returned (select example_random (example_params (Q2Qc (1 # 2))) example_now
              never_bet_registry ∅ "seed")
  = Ok (Some 1%nat).
Proof.
  destruct (select_picks_most_liquid_new_bet example_random
              (example_params (Q2Qc (1 # 2))) example_now never_bet_registry ∅ "seed")
    as [idx [b [Hidx [Hb [_ [_ [_ [_ Hs]]]]]]]].
  - exists (market_bet "0xa" 5 0 0 0 0 TO_PROCESS). split; [now left | reflexivity].
  - rewrite Hs. injection Hidx as <-. injection Hb as <-. reflexivity.
Defined.

(** C7: when the eligible bets are non-empty and none of them is new,
    [select] picks, among the eligible bets of the least queue number, one
    that none of them outranks in the descending order on (invested amount,
    minus processed timestamp, liquidity, opening time); in particular no
    eligible bet in that queue with the same invested amount has a smaller
    processed timestamp. It returns the position of that bet in the
    registry unless the liquidity of the pick is exactly zero. *)
Theorem select_picks_priority_bet (random_random : string -> Qc)
    (params : Params) (now : Z) (stored : list Bet) (cache : gmap string Qc)
    (randomness_seed : string) :
  let st := setup random_random params stored cache randomness_seed in
  let eligible := List.filter (processable_bet params now st) stored in
  eligible <> [] ->
  (forall c, In c eligible -> processed_timestamp c <> 0) ->
  exists idx b,
    _sampled_bet_idx st eligible = Ok idx /\
    stored !! idx = Some b /\
    In b eligible /\
    (forall c, In c eligible -> queue_no b <= queue_no c) /\
    (forall c, In c eligible -> queue_no c = queue_no b -> priority_rank_ge b c) /\
    (forall c, In c eligible -> queue_no c = queue_no b ->
       invested_amount c = invested_amount b ->
       processed_timestamp b <= processed_timestamp c) /\
    select random_random params now stored cache randomness_seed
      = Ok (sampled st idx b).
Proof.
  intros st eligible Hne Hold.
  destruct (sample_retry_bets params now st Hne Hold)
    as [idx [b [Hidx [Hb [Hin [Hq [Hmax Hs]]]]]]].
  exists idx, b. repeat split; try assumption.
  intros c Hc Hqc Hinv.
  now apply priority_rank_ge_equal_invested; [apply Hmax |].
Qed.

(** Of the two eligible previously-bet bets with equal invested amounts,
    the second, processed at time 100 rather than 200, is returned. *)
Lemma select_picks_priority_bet_witness :
  returned (select example_random (example_params (Q2Qc (1 # 2))) example_now
              previously_bet_registry ∅ "seed")
  = Ok (Some 1%nat).
Proof.
  destruct (select_picks_priority_bet example_random
              (example_params (Q2Qc (1 # 2))) example_now previously_bet_registry
              ∅ "seed")
    as [idx [b [Hidx [Hb [_ [_ [_ [_ Hs]]]]]]]].
  - discriminate.
  - intros c [<- | [<- | []]]; discriminate.
  - rewrite Hs. injection Hidx as <-. injection Hb as <-. reflexivity.
Defined.

(** The queue number comes first: when the least recently processed of the
    two bets sits in a higher queue, the other one is returned. *)
Example select_prefers_least_queue :
  returned (select example_random (example_params (Q2Qc (1 # 2))) example_now
              split_queue_registry ∅ "seed")
  = Ok (Some 0%nat).
Proof. vm_compute. reflexivity. Qed.

(** [expire_due] marks exactly the bets that are due: if the expired bets
    of a registry were all due at time [now], so are those of the registry
    after [_blacklist_expired_bets], and every due bet is then expired. *)
Lemma blacklist_expired_bets_due (now opening_margin : Z) (registry : list Bet) :
  (forall b, In b registry -> queue_status b = EXPIRED ->
     openingTimestamp b - opening_margin <= now) ->
  forall b,
    In b (MarketManager._blacklist_expired_bets now opening_margin registry) ->
    (queue_status b = EXPIRED <-> openingTimestamp b - opening_margin <= now).
Proof.
  intros Hinv b Hb. unfold MarketManager._blacklist_expired_bets in Hb.
  apply in_map_iff in Hb. destruct Hb as [b0 [<- Hb0]].
  case_bool_decide as Hdue.
  - cbn. split; [intros _; lia | reflexivity].
  - split; [now apply Hinv | lia].
Qed.

(** C2, as the code has it: [select] never looks at the queue status; what
    keeps an expired bet from being returned is the time window. With a
    non-negative safe voting range, on a registry whose expired bets all
    satisfy the expiry condition at the sampling time (their opening
    timestamp minus the opening margin is not after [now], which is when
    [expire_due] marks a bet), the bet whose position [select] returns is
    not expired. *)
Theorem select_skips_expired_due_bets (random_random : string -> Qc)
    (params : Params) (now : Z) (stored : list Bet) (cache : gmap string Qc)
    (randomness_seed : string) (idx : nat) (st' : State) :
  0 <= safe_voting_range params ->
  (forall b, In b stored -> queue_status b = EXPIRED ->
     openingTimestamp b - opening_margin params <= now) ->
  select random_random params now stored cache randomness_seed
    = Ok (Some idx, st') ->
  exists b, stored !! idx = Some b /\ queue_status b <> EXPIRED
            /\ now < openingTimestamp b - opening_margin params.
Proof.
  intros Hsafe Hinv Hsel. unfold select in Hsel.
  destruct (sample_returns_processable _ _ _ _ _ Hsel) as [b [Hb [Hproc _]]].
  cbn in Hb. exists b. split; [exact Hb |].
  apply processable_within_safe_range in Hproc.
  split; [| lia].
  intros Hexp. apply list_elem_of_lookup_2, list_elem_of_In in Hb.
  specialize (Hinv b Hb Hexp). lia.
Qed.

Lemma select_skips_expired_due_bets_witness :
  exists b, expired_due_registry !! 1%nat = Some b /\ queue_status b <> EXPIRED
            /\ example_now < openingTimestamp b
                              - opening_margin (example_params (Q2Qc (1 # 2))).
Proof.
  apply (select_skips_expired_due_bets example_random
           (example_params (Q2Qc (1 # 2))) example_now expired_due_registry ∅
           "seed" 1%nat
           (mkState expired_due_registry
                    (<["0xb"%string := Qc_of_Z 10]> ∅) false)).
  - cbn. lia.
  - intros b [<- | [<- | []]] H; [vm_compute; discriminate | discriminate H].
  - vm_compute. reflexivity.
Defined.

(** C2 as stated fails: a bet whose queue status is EXPIRED while its
    market is still inside the sampling window is returned by [select]. *)
Lemma expired_bet_in_window_is_selected :
  queue_status <$> expired_in_window_registry !! 0%nat = Some EXPIRED /\
  returned (select example_random (example_params (Q2Qc (1 # 2))) example_now
              expired_in_window_registry ∅ "seed")
  = Ok (Some 0%nat).
Proof. split; [reflexivity | vm_compute; reflexivity]. Qed.

(** *** The sampling payload *)

(** C5 on the code: [SamplingPayload] declares the field [index] after the
    framework's [sender] and no field for the hash of the bets, so its
    constructor takes two values; given the three values [async_act] passes
    (sender, bets hash, index) it raises [TypeError], and so does
    [async_act] in every state, whether or not a bet was sampled. *)
Theorem sampling_payload_has_no_bets_hash :
  Payloads.SamplingPayload_fields = ["sender"; "index"]%string /\
  (forall sender bets_hash index : value,
     Payloads.SamplingPayload [sender; bets_hash; index] [] = Raise TypeError) /\
  (forall (params : Params) (now : Z) (hash_file : list Bet -> string)
          (agent_address : string) (file : list Bet) (st : State),
     async_act params now hash_file agent_address file st = Raise TypeError).
Proof.
  split; [reflexivity | split; [reflexivity |]].
  intros params now hash_file agent_address file st. unfold async_act.
  destruct (sample_spec params now st) as [[_ Hs] | [_ [idx [b [_ [_ [_ Hs]]]]]]];
    rewrite Hs; reflexivity.
Qed.

(** The constructor does accept the sender and the index alone. *)
Example sampling_payload_two_fields :
  Payloads.SamplingPayload [VStr "agent_0"; VInt 3] []
  = Ok [("sender"%string, VStr "agent_0"); ("index"%string, VInt 3)].
Proof. reflexivity. Qed.

End SamplingFacts.

(** ** More on the transition table *)

Module RoundsGraphFacts.
Import Rounds RoundsGraph.

(** X1. Every round is either a final round, which has no entry in the
    transition table at all, or a round whose [NO_MAJORITY] entry leads back
    to itself. *)
Theorem final_or_no_majority_self_loop (r : Round) :
  (final_states r = true /\ forall e, transition_function r e = None)
  \/ (final_states r = false /\ transition_function r NO_MAJORITY = Some r).
Proof.
  destruct r; cbn;
    first [ right; split; reflexivity
          | left; split; [reflexivity | intros e; reflexivity] ].
Qed.

(** X2. No round is a dead end: from every round that is not final, a
    final round is entered after at most two transitions. *)
Theorem final_round_within_two_transitions (r : Round) :
  final_states r = false ->
  exists e1 r1,
    transition_function r e1 = Some r1 /\
    (final_states r1 = true
     \/ exists e2 r2, transition_function r1 e2 = Some r2 /\ final_states r2 = true).
Proof.
  destruct r; cbn; intros H; try discriminate H.
  - exists DONE, SamplingRound. split; [reflexivity | right].
    exists NONE, FinishedWithoutDecisionRound. split; reflexivity.
  - exists NO_OP, RedeemRound. split; [reflexivity | right].
    exists DONE, FinishedDecisionMakerRound. split; reflexivity.
  - exists NONE, ImpossibleRound. split; [reflexivity | now left].
  - exists NONE, ImpossibleRound. split; [reflexivity | now left].
  - exists DONE, FinishedSubscriptionRound. split; [reflexivity | now left].
  - exists NONE, FinishedWithoutDecisionRound. split; [reflexivity | now left].
  - exists DONE, BetPlacementRound. split; [reflexivity | right].
    exists DONE, FinishedDecisionMakerRound. split; reflexivity.
  - exists DONE, FinishedDecisionMakerRound. split; [reflexivity | now left].
  - exists DONE, FinishedDecisionMakerRound. split; [reflexivity | now left].
  - exists DONE, FinishedWithoutDecisionRound. split; [reflexivity | now left].
  - exists NONE, ImpossibleRound. split; [reflexivity | now left].
Qed.

Lemma final_round_within_two_transitions_witness :
  exists e1 r1,
    transition_function PredictionRound e1 = Some r1 /\
    (final_states r1 = true
     \/ exists e2 r2, transition_function r1 e2 = Some r2 /\ final_states r2 = true).
Proof. apply (final_round_within_two_transitions PredictionRound). reflexivity. Defined.

(** Neither [ClaimRound] nor [RandomnessRound] is the destination of an
    entry of another round. *)
Lemma claim_and_randomness_only_from_themselves (r r' : Round) (e : Event) :
  transition_function r e = Some r' ->
  (r' = ClaimRound -> r = ClaimRound) /\ (r' = RandomnessRound -> r = RandomnessRound).
Proof.
  destruct r; cbn; destruct e; intros H; try discriminate H;
    injection H as <-; split; intros H'; first [reflexivity | discriminate H'].
Qed.

(** X3. Starting from the initial round [CheckBenchmarkingModeRound], the
    transition table can make every round the active one, except
    [ClaimRound] and [RandomnessRound], which are never entered. *)
Theorem rounds_reachable_from_initial_round (r : Round) :
  reachable initial_round_cls r <-> r <> ClaimRound /\ r <> RandomnessRound.
Proof.
  split.
  - intros H. induction H as [| r1 r2 e _ IH Ht].
    + split; discriminate.
    + destruct (claim_and_randomness_only_from_themselves _ _ _ Ht) as [Hc Hr].
      destruct IH as [IHc IHr]. split; intros ->; auto.
  - intros [Hc Hr].
    assert (Hbr : reachable initial_round_cls BenchmarkingRandomnessRound)
      by (eapply (reach_step _ _ _ BENCHMARKING_ENABLED); [apply reach_here | reflexivity]).
    assert (Hsa : reachable initial_round_cls SamplingRound)
      by (eapply (reach_step _ _ _ DONE); [exact Hbr | reflexivity]).
    assert (Hsu : reachable initial_round_cls SubscriptionRound)
      by (eapply (reach_step _ _ _ DONE); [exact Hsa | reflexivity]).
    assert (Hpr : reachable initial_round_cls PredictionRound)
      by (eapply (reach_step _ _ _ BENCHMARKING_ENABLED); [exact Hsa | reflexivity]).
    assert (Hbp : reachable initial_round_cls BetPlacementRound)
      by (eapply (reach_step _ _ _ DONE); [exact Hpr | reflexivity]).
    assert (Hbl : reachable initial_round_cls BlacklistingRound)
      by (eapply (reach_step _ _ _ UNPROFITABLE); [exact Hpr | reflexivity]).
    assert (Hre : reachable initial_round_cls RedeemRound)
      by (eapply (reach_step _ _ _ MOCK_TX); [exact Hbp | reflexivity]).
    destruct r; try congruence; try assumption.
    + eapply (reach_step _ _ _ CALC_BUY_AMOUNT_FAILED); [exact Hbp | reflexivity].
    + apply reach_here.
    + eapply (reach_step _ _ _ DONE); [exact Hbp | reflexivity].
    + eapply (reach_step _ _ _ NONE); [exact Hsa | reflexivity].
    + eapply (reach_step _ _ _ NONE); [apply reach_here | reflexivity].
    + eapply (reach_step _ _ _ BENCHMARKING_FINISHED); [exact Hsa | reflexivity].
    + eapply (reach_step _ _ _ BENCHMARKING_DISABLED); [apply reach_here | reflexivity].
    + eapply (reach_step _ _ _ NO_REDEEMING); [exact Hre | reflexivity].
    + eapply (reach_step _ _ _ INSUFFICIENT_BALANCE); [exact Hbp | reflexivity].
    + eapply (reach_step _ _ _ DONE); [exact Hsu | reflexivity].
Qed.

Lemma rounds_reachable_from_initial_round_witness :
  reachable initial_round_cls RedeemRound /\ ~ reachable initial_round_cls ClaimRound.
Proof.
  split.
  - apply (rounds_reachable_from_initial_round RedeemRound). split; discriminate.
  - intros H. apply (rounds_reachable_from_initial_round ClaimRound) in H.
    destruct H as [H _]. now apply H.
Defined.

End RoundsGraphFacts.

(** ** More on the prediction round *)

Module EndBlockFacts.
Import Py PredictionState.

(** [max_from] returns its seed when no key is strictly larger, and
    otherwise the first item that carries the largest key. *)
Lemma max_from_first {A : Type} (f : A -> Z) (l : list A) (best : A) :
  (max_from f best l = best /\ forall y, In y l -> f y <= f best)
  \/ exists pre post,
       l = pre ++ max_from f best l :: post /\
       f best < f (max_from f best l) /\
       (forall y, In y pre -> f y < f (max_from f best l)) /\
       (forall y, In y post -> f y <= f (max_from f best l)).
Proof.
  revert best. induction l as [| x r IH]; intros best; cbn.
  - left. split; [reflexivity | intros ? []].
  - case_bool_decide as Hlt.
    + right. destruct (IH x) as [[Heq Hle] | [pre [post [Hl [Hb [Hpre Hpost]]]]]].
      * exists [], r. rewrite Heq. cbn. repeat split; auto. intros ? [].
      * exists (x :: pre), post. repeat split.
        -- cbn. now rewrite <- Hl.
        -- lia.
        -- intros y [<- | Hy]; [exact Hb | now apply Hpre].
        -- exact Hpost.
    + destruct (IH best) as [[Heq Hle] | [pre [post [Hl [Hb [Hpre Hpost]]]]]].
      * left. split; [exact Heq |]. intros y [<- | Hy]; [lia | now apply Hle].
      * right. exists (x :: pre), post. repeat split.
        -- cbn. now rewrite <- Hl.
        -- exact Hb.
        -- intros y [<- | Hy]; [lia | now apply Hpre].
        -- exact Hpost.
Qed.

(** [max(l, key=f)] is the first item of [l] that carries the largest key:
    the keys before it are strictly smaller, the keys after it are not
    larger. *)
Lemma max_key_first {A : Type} (f : A -> Z) (l : list A) (w : A) :
  max_key f l = Ok w ->
  exists pre post,
    l = pre ++ w :: post /\
    (forall y, In y pre -> f y < f w) /\
    (forall y, In y post -> f y <= f w).
Proof.
  destruct l as [| x r]; cbn; [discriminate |]. intros [= <-].
  destruct (max_from_first f r x) as [[Heq Hle] | [pre [post [Hl [Hb [Hpre Hpost]]]]]].
  - exists [], r. rewrite Heq. repeat split; auto. intros ? [].
  - exists (x :: pre), post. repeat split.
    + cbn. now rewrite <- Hl.
    + intros y [<- | Hy]; [exact Hb | now apply Hpre].
    + exact Hpost.
Qed.

(** X4. [end_block] passes on an exception of the inherited [end_block].
    When that call returns, [end_block] leaves the synchronized data as
    it is while the threshold is not reached. Once the threshold is
    reached it reads the attribute [most_voted_payload_with_threshold]:
    where reading it raises (an [AttributeError] where the class has no
    such attribute), [end_block] raises the same exception; where it
    holds an empty dict, [max] raises [ValueError]; and where it holds a
    non-empty dict of vote counts, [end_block] records the collection
    together with the first payload value, in the dict's iteration order,
    that has the largest count: values before it have strictly fewer votes
    and values after it have no more. *)
Theorem end_block_selects_first_most_voted (inherited : result unit)
    (attribute : result (list (string * Z)))
    (T : Z) (c : collection) (sd : SynchronizedData) :
  (forall e, inherited = Raise e ->
     end_block inherited attribute T c sd = Raise e) /\
  (inherited = Ok tt ->
   (threshold_reached T c = false ->
      end_block inherited attribute T c sd = Ok sd) /\
   (threshold_reached T c = true ->
      match attribute with
      | Raise e => end_block inherited attribute T c sd = Raise e
      | Ok [] => end_block inherited attribute T c sd = Raise ValueError
      | Ok d =>
          exists w pre post,
            end_block inherited attribute T c sd
              = Ok (mkSync (Some c) (Some w)) /\
            map fst d = pre ++ w :: post /\
            (forall y, In y pre -> get d y < get d w) /\
            (forall y, In y post -> get d y <= get d w)
      end)).
Proof.
  unfold end_block. split; [intros e -> ; reflexivity |].
  intros ->. cbn [bind]. split; intros H; rewrite H; [reflexivity |].
  destruct attribute as [d | e]; cbn [bind]; [| reflexivity].
  destruct d as [| kn d']; [reflexivity |].
  destruct (max_key (get (kn :: d')) (map fst (kn :: d'))) as [w | e] eqn:E.
  - destruct (max_key_first _ _ _ E) as [pre [post [Hl [Hpre Hpost]]]].
    exists w, pre, post. repeat split; assumption.
  - discriminate E.
Qed.

Lemma end_block_selects_first_most_voted_witness :
  end_block (Ok tt) (Raise AttributeError) 3 (collect done_first)
    (mkSync None None) = Ok (mkSync None None) /\
  end_block (Ok tt) (Raise AttributeError) 2 (collect done_first)
    (mkSync None None) = Raise AttributeError /\
  exists w pre post,
    end_block (Ok tt)
      (Ok (most_voted_payload_with_threshold (collect unprofitable_first)))
      2 (collect unprofitable_first) (mkSync None None)
      = Ok (mkSync (Some (collect unprofitable_first)) (Some w)) /\
    map fst (most_voted_payload_with_threshold (collect unprofitable_first))
      = pre ++ w :: post /\
    (forall y, In y pre ->
       get (most_voted_payload_with_threshold (collect unprofitable_first)) y
       < get (most_voted_payload_with_threshold (collect unprofitable_first)) w) /\
    (forall y, In y post ->
       get (most_voted_payload_with_threshold (collect unprofitable_first)) y
       <= get (most_voted_payload_with_threshold (collect unprofitable_first)) w).
Proof.
  split; [| split].
  - apply (end_block_selects_first_most_voted (Ok tt) (Raise AttributeError)
             3 (collect done_first)); reflexivity.
  - apply (proj2 (end_block_selects_first_most_voted (Ok tt)
                    (Raise AttributeError) 2 (collect done_first)
                    (mkSync None None)) eq_refl).
    reflexivity.
  - apply (proj2 (end_block_selects_first_most_voted (Ok tt)
                    (Ok (most_voted_payload_with_threshold
                           (collect unprofitable_first)))
                    2 (collect unprofitable_first) (mkSync None None)) eq_refl).
    reflexivity.
Defined.

End EndBlockFacts.

(** ** More on the list built-ins *)

Module PyMoreFacts.
Import Py PyFacts.

Section SortHead.
Context {A K : Type} (ltb : K -> K -> bool) (key : A -> K).
Hypothesis order : strict_total ltb.

(** The sort is stable: its first item is the first item of the list that
    carries the largest key. The keys before it are strictly smaller, the
    keys after it are not larger. *)
Lemma sort_reverse_head_split (l : list A) (h : A) (t : list A) :
  sort_reverse ltb key l = h :: t ->
  exists pre post,
    l = pre ++ h :: post /\
    (forall y, In y pre -> ltb (key y) (key h) = true) /\
    (forall y, In y post -> ltb (key h) (key y) = false).
Proof.
  revert h t. induction l as [| x r IH]; intros h t; cbn; [discriminate |].
  destruct (sort_reverse ltb key r) as [| h' t'] eqn:E; cbn.
  - intros [= <- <-]. exists [], r. split; [reflexivity |].
    split; [intros ? [] |]. intros y Hy.
    apply (sort_reverse_In ltb key) in Hy. rewrite E in Hy. destruct Hy.
  - destruct (IH h' t' eq_refl) as [pre [post [Hr [Hpre Hpost]]]].
    destruct (ltb (key x) (key h')) eqn:Hlt.
    + intros [= <- <-]. exists (x :: pre), post.
      split; [cbn; now rewrite Hr |].
      split; [| exact Hpost].
      intros y [<- | Hy]; [exact Hlt | now apply Hpre].
    + intros [= <- <-]. exists [], r. split; [reflexivity |].
      split; [intros ? [] |]. intros y Hy.
      rewrite Hr in Hy. apply in_app_or in Hy.
      destruct Hy as [Hy | [<- | Hy]].
      * destruct (ltb (key x) (key y)) eqn:Hxy; [| reflexivity].
        rewrite (lt_trans ltb order _ _ _ Hxy (Hpre y Hy)) in Hlt. discriminate.
      * exact Hlt.
      * eapply (not_lt_trans ltb order); [exact Hlt | now apply Hpost].
Qed.
End SortHead.

(** A split of a filtered list comes from a split of the list. *)
Lemma filter_split {A : Type} (f : A -> bool) (l : list A) (pre post : list A) (h : A) :
  List.filter f l = pre ++ h :: post ->
  exists l1 l2, l = l1 ++ h :: l2 /\ List.filter f l1 = pre /\ List.filter f l2 = post.
Proof.
  revert pre. induction l as [| x r IH]; intros pre; cbn.
  - destruct pre; discriminate.
  - destruct (f x) eqn:Hx.
    + destruct pre as [| p pre']; cbn.
      * intros [= <- Hr]. exists [], r. repeat split; auto.
      * intros [= <- Hr]. destruct (IH pre' Hr) as [l1 [l2 [-> [H1 H2]]]].
        exists (x :: l1), l2. cbn. rewrite Hx, H1. repeat split; auto.
    + intros Hr. destruct (IH pre Hr) as [l1 [l2 [-> [H1 H2]]]].
      exists (x :: l1), l2. cbn. rewrite Hx. repeat split; auto.
Qed.

(** [index] returns the first position of the item. *)
Lemma index_first {A : Type} `{EqDecision A} (x : A) (l1 l2 : list A) :
  ~ In x l1 -> index x (l1 ++ x :: l2) = Ok (length l1).
Proof.
  induction l1 as [| y r IH]; cbn; intros Hn.
  - now rewrite decide_True.
  - rewrite decide_False by (intros ->; apply Hn; now left).
    rewrite IH by (intros H; apply Hn; now right). reflexivity.
Qed.

(** Sorting the items that pass a filter and looking the first one up in
    the whole list gives a position before which every item passing the
    filter has a strictly smaller key. *)
Lemma first_best_position {A K : Type} `{EqDecision A}
    (ltb : K -> K -> bool) (key : A -> K) (f : A -> bool) (l : list A)
    (h : A) (t : list A) (i : nat) :
  strict_total ltb ->
  sort_reverse ltb key (List.filter f l) = h :: t ->
  index h l = Ok i ->
  forall j c, (j < i)%nat -> l !! j = Some c -> f c = true ->
    ltb (key c) (key h) = true.
Proof.
  intros order Hs Hi j c Hj Hc Hf.
  destruct (sort_reverse_head_split ltb key order _ _ _ Hs)
    as [pre [post [Hfl [Hpre _]]]].
  destruct (filter_split f l pre post h Hfl) as [l1 [l2 [-> [H1 _]]]].
  assert (Hfh : f h = true).
  { assert (In h (List.filter f (l1 ++ h :: l2)))
      by (rewrite Hfl; apply in_or_app; right; now left).
    now apply filter_In in H. }
  assert (Hn : ~ In h l1).
  { intros Hin. assert (Hp : In h pre)
      by (rewrite <- H1; apply filter_In; split; assumption).
    apply Hpre in Hp. now rewrite (lt_irrefl ltb order) in Hp. }
  rewrite (index_first h l1 l2 Hn) in Hi. injection Hi as <-.
  rewrite lookup_app_l in Hc by exact Hj.
  apply Hpre. rewrite <- H1. apply filter_In. split; [| exact Hf].
  apply list_elem_of_In. eapply list_elem_of_lookup_2. exact Hc.
Qed.

(** The position [index] returns holds the item. *)
Lemma index_lookup {A : Type} `{EqDecision A} (x : A) (l : list A) (i : nat) :
  index x l = Ok i -> l !! i = Some x.
Proof.
  revert i. induction l as [| y r IH]; intros i; cbn; [discriminate |].
  case_decide as E.
  - intros [= <-]. now subst.
  - destruct (index x r) as [k | e]; cbn; [| discriminate].
    intros [= <-]. now apply IH.
Qed.

Lemma filter_filter_and {A : Type} (f g : A -> bool) (l : list A) :
  List.filter g (List.filter f l) = List.filter (fun x => f x && g x) l.
Proof.
  induction l as [| x r IH]; cbn; [reflexivity |].
  destruct (f x); cbn; [destruct (g x); now rewrite IH | exact IH].
Qed.

End PyMoreFacts.

(** ** More on sampling *)

Module SamplingMoreFacts.
Import Py PyFacts PyMoreFacts Bets Sampling SamplingFacts SamplingRanks.

(** A processable bet lies inside both time windows. *)
Lemma processable_within_ranges (params : Params) (now : Z) (st : State) (b : Bet) :
  processable_bet params now st b = true ->
  openingTimestamp b <= now + sample_bets_closing_days params * UNIX_DAY /\
  now < openingTimestamp b - opening_margin params - safe_voting_range params.
Proof.
  unfold processable_bet. intros H.
  destruct (xorb _ _); [discriminate |].
  destruct (negb (should_rebet st));
    apply andb_true_iff in H; destruct H as [H _];
    apply andb_true_iff in H; destruct H as [H1 H2];
    apply bool_decide_eq_true in H1; apply bool_decide_eq_true in H2; auto.
Qed.

(** What being processable requires of a bet in each mode. *)
Lemma processable_mode (params : Params) (now : Z) (st : State) (b : Bet) :
  processable_bet params now st b = true ->
  (should_rebet st = true ->
     n_bets b <> 0 /\
     processed_timestamp b
       + ((openingTimestamp b - now) `div` UNIX_WEEK + UNIX_DAY) <= now) /\
  (should_rebet st = false ->
     n_bets b = 0 /\
     liquidity_cache st !! id b <> Some (scaledLiquidityMeasure b)).
Proof.
  unfold processable_bet, has_liquidity_changed. intros H.
  destruct (should_rebet st); cbn in H.
  - split; [intros _ | discriminate].
    case_bool_decide as Hn; cbn in H; [discriminate |].
    apply andb_true_iff in H. destruct H as [_ H].
    apply bool_decide_eq_true in H. split; [exact Hn | lia].
  - split; [discriminate | intros _].
    case_bool_decide as Hn; cbn in H; [| discriminate].
    apply andb_true_iff in H. destruct H as [_ H].
    split; [exact Hn |].
    destruct (liquidity_cache st !! id b) as [p |]; [| discriminate].
    apply negb_true_iff, bool_decide_eq_false in H. congruence.
Qed.

(** X5. [select] never raises. When it returns nothing, no bet was
    processable or the bet picked had zero liquidity, and the state is left
    as it was. When it returns an index, the index is a position of the
    registry, and the bet there is processable, has non-zero liquidity and
    opens inside the sampling window: later than the opening margin plus
    the safe voting range from now, and no later than
    [sample_bets_closing_days] days from now. *)
Theorem select_returns_processable_bet (random_random : string -> Qc)
    (params : Params) (now : Z) (stored : list Bet) (cache : gmap string Qc)
    (randomness_seed : string) :
  let st := setup random_random params stored cache randomness_seed in
  let eligible := List.filter (processable_bet params now st) stored in
  exists r st',
    select random_random params now stored cache randomness_seed = Ok (r, st') /\
    match r with
    | None =>
        st' = st /\
        (eligible = []
         \/ exists idx b, _sampled_bet_idx st eligible = Ok idx /\
                          stored !! idx = Some b /\
                          scaledLiquidityMeasure b = Qc_of_Z 0)
    | Some idx =>
        exists b,
          stored !! idx = Some b /\ (idx < length stored)%nat /\
          processable_bet params now st b = true /\
          scaledLiquidityMeasure b <> Qc_of_Z 0 /\
          now + opening_margin params + safe_voting_range params
            < openingTimestamp b
            <= now + sample_bets_closing_days params * UNIX_DAY
    end.
Proof.
  cbv zeta. unfold select.
  set (st := setup random_random params stored cache randomness_seed).
  destruct (sample_spec params now st) as [[Hnil Hs] | [_ [idx [b [Hidx [Hb [Hin Hs]]]]]]].
  - exists None, st. split; [exact Hs |]. split; [reflexivity | now left].
  - rewrite Hs. unfold sampled. case_bool_decide as Hl.
    + exists None, st. split; [reflexivity |]. split; [reflexivity | right].
      exists idx, b. auto.
    + eexists (Some idx), _. split; [reflexivity |].
      exists b. apply filter_In in Hin. destruct Hin as [_ Hp].
      destruct (processable_within_ranges _ _ _ _ Hp) as [H1 H2].
      split; [exact Hb |]. split; [now apply lookup_lt_Some in Hb |].
      split; [exact Hp |]. split; [exact Hl | lia].
Qed.

(** X6. The bet [select] returns fits the mode: when rebetting, a bet has
    been placed on it and it is past its rebetting delay (a day plus one
    second for each week of remaining lifetime); when not rebetting, no bet
    has been placed on it and its liquidity differs from the one recorded
    in the cache. With a non-negative opening margin and safe voting range,
    a bet returned for rebetting was processed at least a day ago. *)
Theorem select_respects_rebet_mode (random_random : string -> Qc)
    (params : Params) (now : Z) (stored : list Bet) (cache : gmap string Qc)
    (randomness_seed : string) (idx : nat) (st' : State) :
  let st := setup random_random params stored cache randomness_seed in
  select random_random params now stored cache randomness_seed
    = Ok (Some idx, st') ->
  exists b,
    stored !! idx = Some b /\
    (should_rebet st = true ->
       n_bets b <> 0 /\
       processed_timestamp b
         + ((openingTimestamp b - now) `div` UNIX_WEEK + UNIX_DAY) <= now /\
       (0 <= opening_margin params + safe_voting_range params ->
        processed_timestamp b + UNIX_DAY <= now)) /\
    (should_rebet st = false ->
       n_bets b = 0 /\ cache !! id b <> Some (scaledLiquidityMeasure b)).
Proof.
  cbv zeta. unfold select. intros Hsel.
  destruct (sample_returns_processable _ _ _ _ _ Hsel) as [b [Hb [Hp _]]].
  exists b. split; [exact Hb |].
  destruct (processable_mode _ _ _ _ Hp) as [Hre Hno].
  destruct (processable_within_ranges _ _ _ _ Hp) as [_ Hsafe].
  split.
  - intros Hm. destruct (Hre Hm) as [Hn Hd]. repeat split; try assumption.
    intros Hmargin.
    assert (0 <= (openingTimestamp b - now) `div` UNIX_WEEK)
      by (apply Z.div_pos; [lia | reflexivity]).
    lia.
  - intros Hm. exact (Hno Hm).
Qed.

Lemma select_respects_rebet_mode_witness :
  exists b,
    previously_bet_registry !! 1%nat = Some b /\
    (should_rebet (setup example_random (example_params (Q2Qc (1 # 2)))
                     previously_bet_registry ∅ "seed") = true ->
       n_bets b <> 0 /\
       processed_timestamp b
         + ((openingTimestamp b - example_now) `div` UNIX_WEEK + UNIX_DAY)
         <= example_now /\
       (0 <= opening_margin (example_params (Q2Qc (1 # 2)))
             + safe_voting_range (example_params (Q2Qc (1 # 2))) ->
        processed_timestamp b + UNIX_DAY <= example_now)) /\
    (should_rebet (setup example_random (example_params (Q2Qc (1 # 2)))
                     previously_bet_registry ∅ "seed") = false ->
       n_bets b = 0 /\ (∅ : gmap string Qc) !! id b <> Some (scaledLiquidityMeasure b)).
Proof.
  apply (select_respects_rebet_mode example_random
           (example_params (Q2Qc (1 # 2))) example_now previously_bet_registry ∅
           "seed" 1%nat
           (mkState previously_bet_registry
                    (<["0xb"%string := Qc_of_Z 5]> ∅) true)).
  vm_compute. reflexivity.
Defined.

(** X7. The liquidity check blocks re-selection: on a registry on which no
    bet has been placed, once [select] has returned a bet, a later [select]
    over the same registry and the cache the first one left, at any time
    and with any seed, does not return that bet again. *)
Theorem unchanged_liquidity_blocks_reselection (random_random : string -> Qc)
    (params : Params) (now now' : Z) (stored : list Bet) (cache : gmap string Qc)
    (seed seed' : string) (idx : nat) (st' st'' : State) (r : option nat) :
  (forall b, In b stored -> n_bets b <= 0) ->
  select random_random params now stored cache seed = Ok (Some idx, st') ->
  select random_random params now' stored (liquidity_cache st') seed' = Ok (r, st'') ->
  r <> Some idx.
Proof.
  intros Hnone H1 H2 ->.
  assert (Hmode : forall c s,
             should_rebet (setup random_random params stored c s) = false).
  { intros c s. unfold setup. cbn.
    replace (existsb (fun bet => bool_decide (n_bets bet > 0)) stored) with false;
      [reflexivity |].
    symmetry. apply not_true_iff_false. intros He.
    apply existsb_exists in He. destruct He as [b [Hb Hn]].
    apply bool_decide_eq_true in Hn. specialize (Hnone b Hb). lia. }
  unfold select in H1, H2.
  destruct (sample_spec params now (setup random_random params stored cache seed))
    as [[_ Hs] | [_ [i [b [_ [Hb [_ Hs]]]]]]]; rewrite Hs in H1; [discriminate |].
  unfold sampled in H1. case_bool_decide as Hl; [discriminate |].
  injection H1 as <- <-. cbn in Hb, H2.
  destruct (sample_returns_processable _ _ _ _ _ H2) as [b2 [Hb2 [Hp _]]].
  cbn in Hb2. assert (b2 = b) as -> by congruence.
  destruct (processable_mode _ _ _ _ Hp) as [_ Hno].
  destruct (Hno (Hmode _ _)) as [_ Hc].
  apply Hc. cbn. apply lookup_insert_eq.
Qed.

Lemma unchanged_liquidity_blocks_reselection_witness :
  Some 0%nat <> Some 1%nat.
Proof.
  apply (unchanged_liquidity_blocks_reselection example_random
           (example_params (Q2Qc (1 # 2))) example_now (example_now + 5)
           never_bet_registry ∅ "seed" "later seed" 1%nat
           (mkState never_bet_registry (<["0xb"%string := Qc_of_Z 10]> ∅) false)
           (mkState never_bet_registry
              (<["0xa"%string := Qc_of_Z 5]> (<["0xb"%string := Qc_of_Z 10]> ∅))
              false)
           (Some 0%nat)).
  - intros b [<- | [<- | []]]; cbn; lia.
  - vm_compute. reflexivity.
  - vm_compute. reflexivity.
Defined.

(** X8. On a registry on which no bet has been placed, what [select]
    returns depends neither on the seed, nor on the generator, nor on the
    rebet chance. *)
Theorem select_ignores_randomness_without_past_bets
    (random1 random2 : string -> Qc) (chance1 chance2 : Qc)
    (days margin range now : Z) (stored : list Bet) (cache : gmap string Qc)
    (seed1 seed2 : string) :
  (forall b, In b stored -> n_bets b <= 0) ->
  select random1 (mkParams chance1 days margin range) now stored cache seed1
  = select random2 (mkParams chance2 days margin range) now stored cache seed2.
Proof.
  intros Hnone. unfold select, setup. cbn.
  replace (existsb (fun bet => bool_decide (n_bets bet > 0)) stored) with false;
    [reflexivity |].
  symmetry. apply not_true_iff_false. intros He.
  apply existsb_exists in He. destruct He as [b [Hb Hn]].
  apply bool_decide_eq_true in Hn. specialize (Hnone b Hb). lia.
Qed.

Lemma select_ignores_randomness_without_past_bets_witness :
  select example_random (mkParams (Q2Qc (1 # 2)) 10 300 600) example_now
         never_bet_registry ∅ "seed"
  = select (fun _ => Q2Qc (9 # 10)) (mkParams (Q2Qc (1 # 10)) 10 300 600)
           example_now never_bet_registry ∅ "another seed".
Proof.
  apply select_ignores_randomness_without_past_bets.
  intros b [<- | [<- | []]]; cbn; lia.
Defined.

Lemma Qcltb_true (x y : Qc) : Qcltb x y = true <-> (x < y)%Qc.
Proof. unfold Qcltb. apply bool_decide_eq_true. Qed.

(** The strict tuple comparison of the new-bet keys, spelled out. *)
Lemma new_key_lt_true (b c : Bet) :
  new_key_lt (new_key c) (new_key b) = true <-> new_rank_gt b c.
Proof.
  unfold new_key_lt, new_key, tuple_lt, new_rank_gt. cbn.
  case_decide as E.
  - unfold Zltb. rewrite bool_decide_eq_true. split.
    + intros H. right. split; assumption.
    + intros [H | [_ H]]; [| exact H].
      rewrite E in H. now apply (irreflexivity Qclt) in H.
  - rewrite Qcltb_true. split.
    + intros H. now left.
    + intros [H | [H _]]; [exact H | contradiction].
Qed.

(** The strict tuple comparison of the priority keys, spelled out. *)
Lemma priority_key_lt_true (b c : Bet) :
  priority_key_lt (priority_key c) (priority_key b) = true
  <-> priority_rank_gt b c.
Proof.
  unfold priority_rank_gt. rewrite <- new_key_lt_true.
  unfold priority_key_lt, priority_key, new_key_lt, new_key.
  unfold tuple_lt at 1. cbn [fst snd].
  case_decide as E.
  - unfold tuple_lt at 1. cbn [fst snd].
    case_decide as E'.
    + split.
      * intros H. right. split; [exact E |]. right. split; [lia | exact H].
      * intros [H | [_ [H | [_ H]]]]; [| lia | exact H].
        rewrite E in H. now apply (irreflexivity Qclt) in H.
    + unfold Zltb. rewrite bool_decide_eq_true. split.
      * intros H. right. split; [exact E |]. left. lia.
      * intros [H | [_ [H | [H _]]]]; [| lia | lia].
        rewrite E in H. now apply (irreflexivity Qclt) in H.
  - rewrite Qcltb_true. split.
    + intros H. now left.
    + intros [H | [H _]]; [exact H | contradiction].
Qed.

(** How [_sampled_bet_idx] arrives at the index it returns. *)
Lemma sampled_bet_idx_inv (st : State) (l : list Bet) (idx : nat) :
  _sampled_bet_idx st l = Ok idx ->
  (exists h t,
     sort_reverse new_key_lt new_key
       (List.filter (fun bet => bool_decide (processed_timestamp bet = 0)) l)
       = h :: t /\
     index h (bets st) = Ok idx)
  \/ (List.filter (fun bet => bool_decide (processed_timestamp bet = 0)) l = [] /\
      exists m h t,
        min_list (map queue_no l) = Ok m /\
        sort_reverse priority_key_lt priority_key
          (List.filter (fun bet => bool_decide (queue_no bet = m)) l) = h :: t /\
        index h (bets st) = Ok idx).
Proof.
  unfold _sampled_bet_idx.
  destruct (min_list (map queue_no l)) as [m | e]; cbn [bind]; [| discriminate].
  destruct (List.filter (fun bet => bool_decide (processed_timestamp bet = 0)) l)
    as [| n ns] eqn:Hnew.
  - intros H. right. split; [reflexivity |].
    destruct (sort_reverse priority_key_lt priority_key _) as [| h t] eqn:Hs;
      [discriminate |].
    exists m, h, t. split; [reflexivity |]. split; [exact Hs | exact H].
  - intros H. left.
    destruct (sort_reverse new_key_lt new_key (n :: ns)) as [| h t] eqn:Hs;
      [discriminate |].
    exists h, t. split; [reflexivity | exact H].
Qed.

(** X9. Ties are broken by the position in the registry: every processable
    bet that stands before the returned one and competes with it is ranked
    strictly below it. When the returned bet is new, these are the new
    processable bets before it, compared on (liquidity, opening time);
    otherwise they are the processable bets of its queue before it,
    compared on (invested amount, minus processed timestamp, liquidity,
    opening time). *)
Theorem select_breaks_ties_by_position (random_random : string -> Qc)
    (params : Params) (now : Z) (stored : list Bet) (cache : gmap string Qc)
    (randomness_seed : string) (idx : nat) (st' : State) :
  let st := setup random_random params stored cache randomness_seed in
  select random_random params now stored cache randomness_seed
    = Ok (Some idx, st') ->
  exists b,
    stored !! idx = Some b /\
    forall j c, (j < idx)%nat -> stored !! j = Some c ->
      processable_bet params now st c = true ->
      (processed_timestamp b = 0 -> processed_timestamp c = 0 -> new_rank_gt b c) /\
      (processed_timestamp b <> 0 -> queue_no c = queue_no b ->
       priority_rank_gt b c).
Proof.
  cbv zeta. unfold select.
  set (st := setup random_random params stored cache randomness_seed).
  intros Hsel.
  destruct (sample_spec params now st) as [[_ Hs] | [_ [i [b [Hidx [Hb [Hin Hs]]]]]]];
    rewrite Hs in Hsel; [discriminate |].
  unfold sampled in Hsel. case_bool_decide; [discriminate |].
  injection Hsel as <- _. cbn in Hb. exists b. split; [exact Hb |].
  intros j c Hj Hc Hp.
  destruct (sampled_bet_idx_inv _ _ _ Hidx)
    as [[h [t [Hsort Hi]]] | [Hnone [m [h [t [Hm [Hsort Hi]]]]]]].
  - (* the new bets were sorted *)
    assert (h = b) as -> by (apply index_lookup in Hi; cbn in Hi; congruence).
    assert (Hb0 : processed_timestamp b = 0).
    { assert (Hh : In b (b :: t)) by now left.
      rewrite <- Hsort in Hh.
      apply (proj1 (sort_reverse_In new_key_lt new_key b _)) in Hh.
      apply filter_In in Hh. destruct Hh as [_ Hh].
      now apply bool_decide_eq_true in Hh. }
    split; [| intros Hn; contradiction].
    intros _ Hc0. apply new_key_lt_true.
    rewrite filter_filter_and in Hsort.
    eapply (first_best_position new_key_lt new_key _ (bets st));
      [apply new_key_lt_strict_total | exact Hsort | exact Hi | exact Hj | exact Hc |].
    cbv beta. rewrite Hp. now apply bool_decide_eq_true.
  - (* no new bet: the priority bets were sorted *)
    assert (h = b) as -> by (apply index_lookup in Hi; cbn in Hi; congruence).
    assert (Hbq : queue_no b = m).
    { assert (Hh : In b (b :: t)) by now left.
      rewrite <- Hsort in Hh.
      apply (proj1 (sort_reverse_In priority_key_lt priority_key b _)) in Hh.
      apply filter_In in Hh. destruct Hh as [_ Hh].
      now apply bool_decide_eq_true in Hh. }
    assert (Hbn : processed_timestamp b <> 0).
    { intros H0. assert (Hx : In b []); [| destruct Hx].
      rewrite <- Hnone. apply filter_In.
      split; [exact Hin | now apply bool_decide_eq_true]. }
    split; [intros H0; contradiction |].
    intros _ Hq. apply priority_key_lt_true.
    rewrite filter_filter_and in Hsort.
    eapply (first_best_position priority_key_lt priority_key _ (bets st));
      [apply priority_key_lt_strict_total | exact Hsort | exact Hi | exact Hj
      | exact Hc |].
    cbv beta. rewrite Hp. apply bool_decide_eq_true. congruence.
Qed.

(** In the registry of the two never-bet bets with liquidities 5 and 10 the
    second is returned, and the first, which stands before it, is ranked
    strictly below it. *)
Lemma select_breaks_ties_by_position_witness :
  exists b,
    never_bet_registry !! 1%nat = Some b /\
    forall j c, (j < 1)%nat -> never_bet_registry !! j = Some c ->
      processable_bet (example_params (Q2Qc (1 # 2))) example_now
        (setup example_random (example_params (Q2Qc (1 # 2))) never_bet_registry
               ∅ "seed")
        c = true ->
      (processed_timestamp b = 0 -> processed_timestamp c = 0 -> new_rank_gt b c) /\
      (processed_timestamp b <> 0 -> queue_no c = queue_no b ->
       priority_rank_gt b c).
Proof.
  apply (select_breaks_ties_by_position example_random
           (example_params (Q2Qc (1 # 2))) example_now never_bet_registry ∅ "seed"
           1%nat
           (mkState never_bet_registry (<["0xb"%string := Qc_of_Z 10]> ∅) false)).
  vm_compute. reflexivity.
Defined.

(** Of two never-bet bets tied on liquidity and opening time the first in
    the registry is returned. *)
Example select_returns_first_of_tied_bets :
  returned (select example_random (example_params (Q2Qc (1 # 2))) example_now
              tied_registry ∅ "seed")
  = Ok (Some 0%nat).
Proof. vm_compute. reflexivity. Qed.

End SamplingMoreFacts.

(** ** More on the bet registry *)

Module MarketManagerMoreFacts.
Import Py Bets MarketManager MarketManagerFacts MarketManagerExamples.

(** X10. [get_bet_idx] returns the first position whose bet has the given
    id, and [None] exactly when no tracked bet has it. *)
Theorem get_bet_idx_first_position (bets : list Bet) (bet_id : string) :
  match get_bet_idx bets bet_id with
  | Some i =>
      exists b, bets !! i = Some b /\ id b = bet_id /\
                forall j c, (j < i)%nat -> bets !! j = Some c -> id c <> bet_id
  | None => forall b, In b bets -> id b <> bet_id
  end.
Proof.
  induction bets as [| b r IH]; cbn; [intros ? [] |].
  case_decide as E.
  - exists b. repeat split; [exact E |]. intros j c Hj. lia.
  - destruct (get_bet_idx r bet_id) as [i |]; cbn.
    + destruct IH as [b' [Hb' [Hid Hfirst]]].
      exists b'. repeat split; [exact Hb' | exact Hid |].
      intros [| j] c Hj; cbn; [intros [= <-]; exact E |].
      apply Hfirst. lia.
    + intros b' [<- | Hin]; [exact E | now apply IH].
Qed.

(** Merging one record keeps the ids of the registry free of duplicates. *)
Lemma process_raw_NoDup (market : string) (bets : list Bet) (raw : RawBet) :
  NoDup (map id bets) -> NoDup (map id (process_raw market bets raw)).
Proof.
  intros Hnd.
  destruct (get_bet_idx bets (raw_id raw)) as [i |] eqn:E.
  - destruct (process_raw_tracked market bets raw i E) as [b [Hb [_ [-> _]]]].
    now rewrite (map_id_insert _ _ b).
  - destruct (process_raw_unseen market bets raw E) as [-> _].
    rewrite map_app. cbn. apply NoDup_app. split; [exact Hnd |].
    split; [| apply NoDup_singleton].
    intros k Hk Hk'. apply list_elem_of_In in Hk. apply in_map_iff in Hk.
    destruct Hk as [b [<- Hb]].
    apply list_elem_of_singleton in Hk'.
    now apply (get_bet_idx_None _ _ E b Hb).
Qed.

(** X11. The bet update keeps the ids unique: when no two tracked bets
    share an id before it, none do after it, whatever was fetched (ids
    repeated within a chunk or across chunks included) and whatever the
    fetch status. *)
Theorem update_bets_keeps_ids_unique
    (fetched : list (string * option (list RawBet))) (fetch_status : FetchStatus)
    (bets : list Bet) :
  NoDup (map id bets) -> NoDup (map id (_update_bets fetched fetch_status bets)).
Proof.
  intros Hnd. unfold _update_bets.
  case_decide; [constructor |].
  revert bets Hnd. induction fetched as [| [m c] rest IH]; intros bets Hnd; cbn;
    [exact Hnd |].
  apply IH. destruct c as [records |]; cbn; [| exact Hnd].
  clear IH. revert bets Hnd.
  induction records as [| r rs IHr]; intros bets Hnd; cbn; [exact Hnd |].
  apply IHr. now apply process_raw_NoDup.
Qed.

Lemma update_bets_keeps_ids_unique_witness :
  NoDup (map id (_update_bets repeated_fetch SUCCESS fresh_cohort)).
Proof.
  apply update_bets_keeps_ids_unique.
  vm_compute. repeat constructor; rewrite ?list_elem_of_In; cbn;
    intuition discriminate.
Defined.

(** The ids after merging a fetch that repeats an unseen id. *)
Example repeated_fetch_ids :
  map id (_update_bets repeated_fetch SUCCESS fresh_cohort)
  = ["0xa"; "0xb"; "0xc"; "0xd"]%string.
Proof. reflexivity. Qed.

Lemma update_market_info_twice (b nb : Bet) :
  update_market_info (update_market_info b nb) nb = update_market_info b nb.
Proof. reflexivity. Qed.

Lemma update_market_info_self (b : Bet) : update_market_info b b = b.
Proof. now destruct b. Qed.

(** X12. Merging a record a second time changes nothing. *)
Theorem process_raw_idempotent (market : string) (bets : list Bet) (raw : RawBet) :
  process_raw market (process_raw market bets raw) raw
  = process_raw market bets raw.
Proof.
  destruct (get_bet_idx bets (raw_id raw)) as [i |] eqn:E.
  - destruct (process_raw_tracked market bets raw i E) as [b [Hb [_ [Hp _]]]].
    rewrite Hp.
    assert (Hlt : (i < length bets)%nat) by now apply lookup_lt_Some in Hb.
    assert (E' : get_bet_idx
                   (<[i := update_market_info b (new_Bet raw market)]> bets)
                   (raw_id raw) = Some i).
    { rewrite <- E. apply get_bet_idx_ids. now apply (map_id_insert _ _ b). }
    destruct (process_raw_tracked market _ raw i E') as [b' [Hb' [_ [Hp' _]]]].
    rewrite Hp'. rewrite list_lookup_insert_eq in Hb' by exact Hlt.
    injection Hb' as <-.
    now rewrite update_market_info_twice, list_insert_insert_eq.
  - destruct (process_raw_unseen market bets raw E) as [Hp _]. rewrite Hp.
    assert (E' : get_bet_idx (bets ++ [new_Bet raw market]) (raw_id raw)
                 = Some (length bets)) by now apply (get_bet_idx_app_new bets (new_Bet raw market)).
    destruct (process_raw_tracked market _ raw _ E') as [b' [Hb' [_ [Hp' _]]]].
    rewrite Hp'. rewrite lookup_app_r in Hb' by lia.
    rewrite Nat.sub_diag in Hb'. injection Hb' as <-.
    rewrite update_market_info_self.
    apply list_insert_id. rewrite lookup_app_r by lia. now rewrite Nat.sub_diag.
Qed.

(** *** The whole update *)

(** The guards on the empty registry in [async_act] change nothing: both
    guarded operations map the empty registry to itself. *)
Lemma async_act_bets_unfold (is_checkpoint_reached : bool)
    (synced_time opening_margin : Z)
    (fetched : list (string * option (list RawBet))) (fetch_status : FetchStatus)
    (stored : list Bet) :
  async_act_bets is_checkpoint_reached synced_time opening_margin fetched
    fetch_status stored
  = _bet_freshness_check_and_update
      (_update_bets fetched fetch_status
         (_blacklist_expired_bets synced_time opening_margin
            (if is_checkpoint_reached then _requeue_all_bets stored else stored))).
Proof.
  unfold async_act_bets.
  destruct (if is_checkpoint_reached then _requeue_all_bets stored else stored)
    as [| x r]; cbn [_blacklist_expired_bets map];
    destruct (_update_bets _ _ _); reflexivity.
Qed.

Lemma requeue_statuses (bets : list Bet) :
  Forall (fun b => queue_status b = EXPIRED \/ queue_status b = FRESH)
         (_requeue_all_bets bets).
Proof.
  unfold _requeue_all_bets. apply Forall_forall. intros b Hb.
  apply list_elem_of_In, in_map_iff in Hb. destruct Hb as [b0 [<- _]].
  case_decide as E; [now right |].
  left. destruct (queue_status b0); congruence.
Qed.

Lemma blacklist_statuses (synced_time opening_margin : Z) (bets : list Bet) :
  Forall (fun b => queue_status b = EXPIRED \/ queue_status b = FRESH) bets ->
  Forall (fun b => queue_status b = EXPIRED \/ queue_status b = FRESH)
         (_blacklist_expired_bets synced_time opening_margin bets).
Proof.
  intros H. unfold _blacklist_expired_bets. apply Forall_forall. intros b Hb.
  apply list_elem_of_In, in_map_iff in Hb. destruct Hb as [b0 [<- Hb0]].
  case_bool_decide; [now left |].
  rewrite Forall_forall in H. apply H. now apply list_elem_of_In.
Qed.

Lemma process_raw_statuses (market : string) (bets : list Bet) (raw : RawBet) :
  Forall (fun b => queue_status b = EXPIRED \/ queue_status b = FRESH) bets ->
  Forall (fun b => queue_status b = EXPIRED \/ queue_status b = FRESH)
         (process_raw market bets raw).
Proof.
  intros H.
  destruct (get_bet_idx bets (raw_id raw)) as [i |] eqn:E.
  - destruct (process_raw_tracked market bets raw i E) as [b [Hb [_ [-> _]]]].
    apply Forall_insert; [exact H |].
    exact (Forall_lookup_1 _ _ _ _ H Hb).
  - destruct (process_raw_unseen market bets raw E) as [-> _].
    apply Forall_app. split; [exact H |]. constructor; [now right | constructor].
Qed.

Lemma update_bets_statuses
    (fetched : list (string * option (list RawBet))) (fetch_status : FetchStatus)
    (bets : list Bet) :
  Forall (fun b => queue_status b = EXPIRED \/ queue_status b = FRESH) bets ->
  Forall (fun b => queue_status b = EXPIRED \/ queue_status b = FRESH)
         (_update_bets fetched fetch_status bets).
Proof.
  intros H. unfold _update_bets. case_decide; [constructor |].
  revert bets H. induction fetched as [| [m c] rest IH]; intros bets H; cbn;
    [exact H |].
  apply IH. destruct c as [records |]; cbn; [| exact H].
  clear IH. revert bets H.
  induction records as [| r rs IHr]; intros bets H; cbn; [exact H |].
  apply IHr. now apply process_raw_statuses.
Qed.

(** X13. The update never leaves a registry of fresh bets only: a fresh bet
    in the registry it produces stands next to a bet that is still to
    process. When the checkpoint is reached, so that all bets are requeued
    first, no bet of the resulting registry is fresh: every bet that is not
    expired is to process. *)
Theorem update_leaves_no_fresh_cohort (is_checkpoint_reached : bool)
    (synced_time opening_margin : Z)
    (fetched : list (string * option (list RawBet))) (fetch_status : FetchStatus)
    (stored : list Bet) (b : Bet) :
  In b (async_act_bets is_checkpoint_reached synced_time opening_margin fetched
          fetch_status stored) ->
  queue_status b = FRESH ->
  is_checkpoint_reached = false /\
  exists c,
    In c (async_act_bets is_checkpoint_reached synced_time opening_margin fetched
            fetch_status stored) /\
    queue_status c = TO_PROCESS.
Proof.
  rewrite async_act_bets_unfold.
  set (merged := _update_bets fetched fetch_status _).
  unfold _bet_freshness_check_and_update.
  destruct (all_bets_fresh merged) eqn:E.
  - intros Hb Hf. exfalso. apply in_map_iff in Hb.
    destruct Hb as [b0 [<- _]].
    destruct (negb (bool_decide (queue_status b0 = EXPIRED))) eqn:Hn; cbn in Hf;
      [discriminate |].
    apply negb_false_iff, bool_decide_eq_true in Hn. congruence.
  - intros _ _. split; [| now apply all_bets_fresh_false].
    destruct is_checkpoint_reached; [| reflexivity].
    exfalso. apply not_true_iff_false in E. apply E, all_bets_fresh_true.
    apply update_bets_statuses, blacklist_statuses, requeue_statuses.
Qed.

Lemma update_leaves_no_fresh_cohort_witness :
  false = false /\
  exists c,
    In c (async_act_bets false 1000 300 example_fetch SUCCESS mid_cycle) /\
    queue_status c = TO_PROCESS.
Proof.
  apply (update_leaves_no_fresh_cohort false 1000 300 example_fetch SUCCESS
           mid_cycle (example_bet "0xb" 5 FRESH)).
  - vm_compute. right. left. reflexivity.
  - reflexivity.
Defined.

(** After a checkpoint the requeued cohort is promoted as a whole. *)
Example checkpoint_promotes_cohort :
  map queue_status (async_act_bets true 1000 300 example_fetch SUCCESS mid_cycle)
  = [TO_PROCESS; TO_PROCESS; EXPIRED; TO_PROCESS].
Proof. reflexivity. Qed.

(** X14. EXPIRED is final through the update: whether or not the checkpoint
    is reached, when the fetch succeeds a stored bet that is expired is
    still tracked afterwards, at the same position and with the same id,
    and it is still expired. *)
Theorem update_keeps_expired_bets (is_checkpoint_reached : bool)
    (synced_time opening_margin : Z)
    (fetched : list (string * option (list RawBet))) (stored : list Bet)
    (i : nat) (b : Bet) :
  stored !! i = Some b ->
  queue_status b = EXPIRED ->
  exists b',
    async_act_bets is_checkpoint_reached synced_time opening_margin fetched
      SUCCESS stored !! i = Some b' /\
    id b' = id b /\ queue_status b' = EXPIRED.
Proof.
  intros Hb He. rewrite async_act_bets_unfold.
  (* requeue *)
  assert (H1 : exists b1,
             (if is_checkpoint_reached then _requeue_all_bets stored else stored)
               !! i = Some b1 /\ id b1 = id b /\ queue_status b1 = EXPIRED).
  { destruct is_checkpoint_reached; [| eauto].
    unfold _requeue_all_bets.
    change (map ?f stored) with (f <$> stored).
    rewrite list_lookup_fmap, Hb. cbn.
    rewrite decide_False by (intros Hn; now apply Hn). eauto. }
  destruct H1 as [b1 [Hb1 [Hid1 He1]]].
  (* blacklist *)
  assert (H2 : exists b2,
             _blacklist_expired_bets synced_time opening_margin
               (if is_checkpoint_reached then _requeue_all_bets stored else stored)
               !! i = Some b2 /\ id b2 = id b /\ queue_status b2 = EXPIRED).
  { unfold _blacklist_expired_bets.
    change (map ?f ?l) with (f <$> l).
    rewrite list_lookup_fmap, Hb1. cbn.
    case_bool_decide; eauto. }
  destruct H2 as [b2 [Hb2 [Hid2 He2]]].
  (* merge *)
  destruct (merge_kept fetched
              (_blacklist_expired_bets synced_time opening_margin
                 (if is_checkpoint_reached then _requeue_all_bets stored else stored)))
    as [Hk _].
  destruct (Hk i b2 Hb2) as [b3 [Hb3 [Hid3 Hbk3]]].
  assert (He3 : queue_status b3 = EXPIRED).
  { unfold bookkeeping in Hbk3. injection Hbk3 as _ _ _ _ Hq. congruence. }
  unfold _update_bets at 1. rewrite decide_False by (intros Hn; now apply Hn).
  (* freshness *)
  unfold _bet_freshness_check_and_update.
  destruct (all_bets_fresh _).
  - change (map ?f ?l) with (f <$> l).
    rewrite list_lookup_fmap, Hb3. cbn.
    rewrite bool_decide_eq_true_2 by exact He3. cbn.
    exists b3. repeat split; congruence.
  - exists b3. repeat split; congruence.
Qed.

Lemma update_keeps_expired_bets_witness :
  exists b',
    async_act_bets true 1000 300 example_fetch SUCCESS mid_cycle !! 2%nat = Some b' /\
    id b' = id (example_bet "0xc" 7 EXPIRED) /\ queue_status b' = EXPIRED.
Proof.
  apply (update_keeps_expired_bets true 1000 300 example_fetch mid_cycle 2%nat
           (example_bet "0xc" 7 EXPIRED)); reflexivity.
Defined.

End MarketManagerMoreFacts.

(** ** Expiry and sampling together *)

Module LifecycleFacts.
Import Py Bets Sampling SamplingFacts MarketManager.

(** X15. What [_blacklist_expired_bets] marks stays out of the sampling:
    take a registry whose expired bets, if any, are due at [synced_time],
    mark the due bets at [synced_time] with the opening margin of the
    parameters, and sample at any time from [synced_time] on with a
    non-negative safe voting range; then the bet returned is not expired. *)
Theorem blacklisted_bets_are_not_sampled (random_random : string -> Qc)
    (params : Params) (synced_time now : Z) (registry : list Bet)
    (cache : gmap string Qc) (randomness_seed : string) (idx : nat) (st' : State) :
  0 <= safe_voting_range params ->
  synced_time <= now ->
  (forall b, In b registry -> queue_status b = EXPIRED ->
     openingTimestamp b - opening_margin params <= synced_time) ->
  select random_random params now
         (_blacklist_expired_bets synced_time (opening_margin params) registry)
         cache randomness_seed
    = Ok (Some idx, st') ->
  exists b,
    _blacklist_expired_bets synced_time (opening_margin params) registry !! idx
      = Some b /\
    queue_status b <> EXPIRED /\
    synced_time < openingTimestamp b - opening_margin params.
Proof.
  intros Hsafe Hlater Hinv Hsel. unfold select in Hsel.
  destruct (sample_returns_processable _ _ _ _ _ Hsel) as [b [Hb [Hp _]]].
  cbn in Hb. exists b. split; [exact Hb |].
  apply processable_within_safe_range in Hp.
  assert (Hin : In b (_blacklist_expired_bets synced_time (opening_margin params)
                        registry))
    by (apply list_elem_of_In; eapply list_elem_of_lookup_2; exact Hb).
  pose proof (blacklist_expired_bets_due synced_time (opening_margin params)
                registry Hinv b Hin) as Hdue.
  split; [| lia].
  intros He. apply Hdue in He. lia.
Qed.

Lemma blacklisted_bets_are_not_sampled_witness :
  exists b,
    _blacklist_expired_bets 950000 (opening_margin (example_params (Q2Qc (1 # 2))))
      expired_due_registry !! 1%nat = Some b /\
    queue_status b <> EXPIRED /\
    950000 < openingTimestamp b - opening_margin (example_params (Q2Qc (1 # 2))).
Proof.
  apply (blacklisted_bets_are_not_sampled example_random
           (example_params (Q2Qc (1 # 2))) 950000 example_now expired_due_registry
           ∅ "seed" 1%nat
           (mkState (_blacklist_expired_bets 950000 300 expired_due_registry)
                    (<["0xb"%string := Qc_of_Z 10]> ∅) false)).
  - cbn. lia.
  - unfold example_now. lia.
  - intros b [<- | [<- | []]] H; [vm_compute; discriminate | discriminate H].
  - vm_compute. reflexivity.
Defined.

End LifecycleFacts.

(** ** More on the strategy entry point *)

Module SupafundTraderMoreFacts.
Import Py SupafundTrader SupafundTraderFacts SupafundTraderFields.

Local Open Scope string_scope.


















(** The call with a textual bankroll raises. *)
Example run_textual_bankroll :
  run REQUIRED_FIELDS (fun _ => Ok 9) (fun _ _ => Ok None) (fun _ => "9")
    textual_kwargs = Raise TypeError.
Proof. vm_compute. reflexivity. Qed.

End SupafundTraderMoreFacts.

(** ** More on the prediction step *)

Module PredictionMoreFacts.
Import Py Rounds Prediction PredictionParsing SupafundTrader SupafundTraderFacts.

Local Open Scope string_scope.

Lemma strip_prefix_Some (p s r : string) :
  strip_prefix p s = Some r -> s = p +:+ r.
Proof.
  revert s. induction p as [| a p IH]; intros s; cbn.
  - now intros [= ->].
  - destruct s as [| b s]; [discriminate |].
    destruct (Ascii.eqb a b) eqn:E; [| discriminate].
    apply Ascii.eqb_eq in E. subst b. intros H.
    change (String a s = String a (p +:+ r)). now rewrite (IH s H).
Qed.

Lemma strip_prefix_app (p r : string) : strip_prefix p (p +:+ r) = Some r.
Proof.
  induction p as [| a p IH]; [reflexivity |].
  change (strip_prefix (String a p) (String a (p +:+ r)) = Some r).
  cbn. now rewrite Ascii.eqb_refl.
Qed.

Lemma until_quote_Some (s g : string) :
  until_quote s = Some g ->
  has_quote g = false /\ exists rest, s = g +:+ "'" +:+ rest.
Proof.
  revert g. induction s as [| c s IH]; intros g; cbn; [discriminate |].
  destruct (Ascii.eqb c "'"%char) eqn:E.
  - intros [= <-]. apply Ascii.eqb_eq in E. subst c.
    split; [reflexivity | now exists s].
  - destruct (until_quote s) as [g' |]; cbn; [| discriminate].
    intros [= <-]. destruct (IH g' eq_refl) as [Hq [rest ->]].
    split; [cbn; now rewrite E |]. now exists rest.
Qed.

Lemma until_quote_app (g rest : string) :
  has_quote g = false -> until_quote (g +:+ "'" +:+ rest) = Some g.
Proof.
  induction g as [| c g IH]; [reflexivity |].
  cbn [has_quote]. intros H. apply orb_false_iff in H. destruct H as [Hc Hg].
  change (until_quote (String c (g +:+ "'" +:+ rest)) = Some (String c g)).
  cbn. now rewrite Hc, (IH Hg).
Qed.

Lemma match_here_Some (s g : string) :
  match_here s = Some g ->
  has_quote g = false /\ exists rest, s = marker g +:+ rest.
Proof.
  unfold match_here. destruct (strip_prefix "application_id '" s) as [r |] eqn:E;
    [| discriminate].
  intros H. apply strip_prefix_Some in E.
  destruct (until_quote_Some _ _ H) as [Hq [rest ->]].
  split; [exact Hq |]. exists rest. unfold marker. now rewrite !append_assoc.
Qed.

Lemma search_unfold (s : string) :
  search s = match match_here s with
             | Some group => Some group
             | None => match s with
                       | EmptyString => None
                       | String _ r => search r
                       end
             end.
Proof. destruct s; reflexivity. Qed.

(** X20. An application id the predictor finds in a market question holds
    no quote, and the question contains the marker text for it (the
    literal [application_id], a space and the id between quotes). *)
Theorem search_finds_quoted_id (question application_id : string) :
  search question = Some application_id ->
  has_quote application_id = false /\
  occurs_in (marker application_id) question.
Proof.
  induction question as [| c q IH]; rewrite search_unfold.
  - cbn. discriminate.
  - destruct (match_here (String c q)) as [g |] eqn:E.
    + intros [= ->]. destruct (match_here_Some _ _ E) as [Hq [rest Hs]].
      split; [exact Hq |]. exists "", rest. exact Hs.
    + intros H. destruct (IH H) as [Hq Ho]. split; [exact Hq |].
      now apply (occurs_in_prepend _ q (String c "")).
Qed.

Lemma search_finds_quoted_id_witness :
  has_quote "app-42" = false /\ occurs_in (marker "app-42") question_with_id.
Proof. apply (search_finds_quoted_id question_with_id "app-42"). reflexivity. Defined.

Lemma length_append (a b : string) :
  String.length (a +:+ b) = (String.length a + String.length b)%nat.
Proof.
  induction a as [| c a IH]; [reflexivity |].
  change (S (String.length (a +:+ b)) = S (String.length a + String.length b)).
  now rewrite IH.
Qed.

Lemma first_quote_app (u v : string) :
  has_quote u = false -> first_quote (u +:+ "'" +:+ v) = Some (String.length u).
Proof.
  induction u as [| c u IH]; [reflexivity |].
  cbn [has_quote]. intros H. apply orb_false_iff in H. destruct H as [Hc Hu].
  change (first_quote (String c (u +:+ "'" +:+ v)) = Some (S (String.length u))).
  cbn. now rewrite Hc, (IH Hu).
Qed.

Lemma has_quote_app (u v : string) :
  has_quote (u +:+ v) = has_quote u || has_quote v.
Proof.
  induction u as [| c u IH]; [reflexivity |].
  change (has_quote (String c (u +:+ v)) = has_quote (String c u) || has_quote v).
  cbn. now rewrite IH, orb_assoc.
Qed.

(** Where the pattern matches, the first quote of the text is the one that
    closes the literal prefix. *)
Lemma match_here_first_quote (s g : string) :
  match_here s = Some g -> first_quote s = Some 15%nat.
Proof.
  unfold match_here. destruct (strip_prefix "application_id '" s) as [r |] eqn:E;
    [| discriminate].
  intros _. apply strip_prefix_Some in E. rewrite E.
  apply (first_quote_app "application_id " r). reflexivity.
Qed.

(** X21. Round trip of the question format: in a question made of a text
    without quotes, the marker for an application id without quotes, and
    any further text, the predictor finds exactly that id. *)
Theorem search_marker_round_trip (before application_id after : string) :
  has_quote before = false ->
  has_quote application_id = false ->
  search (before +:+ marker application_id +:+ after) = Some application_id.
Proof.
  intros Hb Ha. induction before as [| c pre IH].
  - change (search (marker application_id +:+ after) = Some application_id).
    rewrite search_unfold.
    assert (Hm : match_here (marker application_id +:+ after) = Some application_id).
    { unfold match_here, marker. rewrite !append_assoc.
      rewrite strip_prefix_app. now apply until_quote_app. }
    now rewrite Hm.
  - cbn [has_quote] in Hb. apply orb_false_iff in Hb. destruct Hb as [Hc Hpre].
    rewrite search_unfold.
    destruct (match_here (String c pre +:+ marker application_id +:+ after))
      as [g |] eqn:E.
    + exfalso. apply match_here_first_quote in E.
      unfold marker in E.
      replace (String c pre +:+ ("application_id '" +:+ application_id +:+ "'") +:+ after)
        with ((String c pre +:+ "application_id ")
              +:+ "'" +:+ (application_id +:+ "'" +:+ after)) in E
        by (rewrite !append_assoc; reflexivity).
      rewrite first_quote_app in E.
      * rewrite length_append in E. cbn in E. injection E as E. lia.
      * rewrite has_quote_app. cbn [has_quote]. now rewrite Hc, Hpre.
    + change (search (pre +:+ marker application_id +:+ after) = Some application_id).
      now apply IH.
Qed.

Lemma search_marker_round_trip_witness :
  search ("Will the project with " +:+ marker "app-42" +:+ " be funded?")
  = Some "app-42".
Proof. apply search_marker_round_trip; reflexivity. Defined.

(** *** When the prediction step raises *)

(** Building the predictor raises in four ways, tried in this order: a
    Supabase credential is not configured; the Supabase constructor
    raises; the language-model key is not configured; the language-model
    constructor raises. *)
Lemma SupafundPredictor_init_Raise (env : Env)
    (create_client : string -> string -> result unit)
    (OpenAI : string -> result unit) (e : exn) :
  SupafundPredictor_init env create_client OpenAI = Raise e
  <-> (e = ValueError /\
       (falsy (NEXT_PUBLIC_SUPABASE_URL env) = true
        \/ falsy (SUPABASE_SERVICE_ROLE_KEY env) = true))
      \/ exists url key,
           NEXT_PUBLIC_SUPABASE_URL env = Some url /\ url <> EmptyString /\
           SUPABASE_SERVICE_ROLE_KEY env = Some key /\ key <> EmptyString /\
           (create_client url key = Raise e
            \/ (create_client url key = Ok tt /\
                ((e = ValueError /\ falsy (OPENAI_API_KEY env) = true)
                 \/ exists api_key,
                      OPENAI_API_KEY env = Some api_key /\
                      api_key <> EmptyString /\ OpenAI api_key = Raise e))).
Proof.
  unfold SupafundPredictor_init, SupafundClient_init, LLMClient_init.
  destruct env as [url key api_key];
    cbn [NEXT_PUBLIC_SUPABASE_URL SUPABASE_SERVICE_ROLE_KEY OPENAI_API_KEY].
  destruct (falsy url) eqn:Eu.
  { cbn. split.
    - intros [= <-]. left. auto.
    - intros [[-> _] | (u & k & -> & Hu & _)]; [reflexivity |].
      rewrite (proj2 (PredictionFacts.falsy_false (Some u))) in Eu by eauto. discriminate Eu. }
  destruct (falsy key) eqn:Ek.
  { cbn. split.
    - intros [= <-]. left. auto.
    - intros [[-> _] | (u & k & _ & _ & -> & Hk & _)]; [reflexivity |].
      rewrite (proj2 (PredictionFacts.falsy_false (Some k))) in Ek by eauto. discriminate Ek. }
  apply PredictionFacts.falsy_false in Eu as [u [-> Hu]]. apply PredictionFacts.falsy_false in Ek as [k [-> Hk]].
  cbn.
  assert (Hnu : falsy (Some u) = true -> False)
    by (cbn; rewrite (bool_decide_eq_false_2 _ Hu); discriminate).
  assert (Hnk : falsy (Some k) = true -> False)
    by (cbn; rewrite (bool_decide_eq_false_2 _ Hk); discriminate).
  destruct (create_client u k) as [[] | e1] eqn:Ec; cbn.
  - destruct (falsy api_key) eqn:Ea; cbn.
    + split.
      * intros [= <-]. right. exists u, k.
        split; [reflexivity |]. split; [exact Hu |].
        split; [reflexivity |]. split; [exact Hk |].
        right. split; [exact Ec |]. left. auto.
      * intros [[_ [H | H]] | (u' & k' & [= <-] & _ & [= <-] & _ & H)];
          [first [discriminate H | now destruct (Hnu H)]
          | first [discriminate H | now destruct (Hnk H)] |].
        destruct H as [H | [_ [[-> _] | (a & -> & Ha & _)]]];
          [congruence | reflexivity |].
        first [discriminate Ea
              | cbn in Ea; rewrite (bool_decide_eq_false_2 _ Ha) in Ea; discriminate Ea].
    + apply PredictionFacts.falsy_false in Ea as [a [-> Ha]]. cbn.
      destruct (OpenAI a) as [[] | e2] eqn:Eo; cbn.
      * split; [discriminate |].
        intros [[_ [H | H]] | (u' & k' & [= <-] & _ & [= <-] & _ & H)];
          [first [discriminate H | now destruct (Hnu H)]
          | first [discriminate H | now destruct (Hnk H)] |].
        destruct H as [H | [_ [[_ H] | (a' & [= <-] & _ & H)]]];
          [congruence | | congruence].
        first [discriminate H
              | cbn in H; rewrite (bool_decide_eq_false_2 _ Ha) in H; discriminate H].
      * split.
        -- intros [= <-]. right. exists u, k.
           split; [reflexivity |]. split; [exact Hu |].
           split; [reflexivity |]. split; [exact Hk |].
           right. split; [exact Ec |]. right. exists a. auto.
        -- intros [[_ [H | H]] | (u' & k' & [= <-] & _ & [= <-] & _ & H)];
             [first [discriminate H | now destruct (Hnu H)]
          | first [discriminate H | now destruct (Hnk H)] |].
           destruct H as [H | [_ [[_ H] | (a' & [= <-] & _ & H)]]];
             [congruence | | congruence].
           first [discriminate H
              | cbn in H; rewrite (bool_decide_eq_false_2 _ Ha) in H; discriminate H].
  - split.
    + intros [= <-]. right. exists u, k.
      split; [reflexivity |]. split; [exact Hu |].
      split; [reflexivity |]. split; [exact Hk |]. now left.
    + intros [[_ [H | H]] | (u' & k' & [= <-] & _ & [= <-] & _ & H)];
        [first [discriminate H | now destruct (Hnu H)]
          | first [discriminate H | now destruct (Hnk H)] |].
      destruct H as [H | [H _]]; congruence.
Qed.

(** The prediction step, case by case. *)
Lemma async_act_cases (env : Env)
    (create_client : string -> string -> result unit)
    (OpenAI : string -> result unit)
    (pipeline : string -> string -> gmap string Py.value + string)
    (agent_address question : string) :
  async_act env create_client OpenAI pipeline agent_address question =
  match SupafundPredictor_init env create_client OpenAI with
  | Raise e => Raise e
  | Ok _ =>
      match search question with
      | None => Raise ValueError
      | Some application_id =>
          match pipeline application_id question with
          | inr _ => Ok (payload_for agent_address UNPROFITABLE)
          | inl res =>
              if decide (res !! "prediction" = Some (VStr "Yes")) then
                match number (confidence_of res) with
                | None => Raise TypeError
                | Some c =>
                    Ok (payload_for agent_address
                          (if bool_decide (Q2Qc (1 # 2) < c)%Qc
                           then DONE else UNPROFITABLE))
                end
              else Ok (payload_for agent_address UNPROFITABLE)
          end
      end
  end.
Proof.
  unfold async_act, run_prediction, Prediction.run.
  destruct (SupafundPredictor_init env create_client OpenAI) as [[] | e];
    cbn [bind]; [| reflexivity].
  destruct (search question) as [app |]; cbn [bind]; [| reflexivity].
  destruct (pipeline app question) as [res | err]; cbn [bind].
  - case_decide; [| reflexivity].
    unfold gt_half. fold (confidence_of res).
    destruct (number (confidence_of res)) as [c |]; cbn [bind]; [| reflexivity].
    case_bool_decide; reflexivity.
  - rewrite decide_False; [reflexivity |].
    unfold error_result. rewrite lookup_insert_eq. discriminate.
Qed.

(** X22. The prediction step raises in exactly these situations:
    - building the predictor raises, and the step raises the same
      exception: [ValueError] when the Supabase URL or key is not
      configured, else what the Supabase constructor raises, else
      [ValueError] when the language-model key is not configured, else
      what the language-model constructor raises;
    - the predictor is built and the question names no application id:
      [ValueError];
    - the predictor is built and the oracle answers "Yes" with a
      confidence that is present but not a number: [TypeError].
    In every other situation it sends a payload whose event is DONE or
    UNPROFITABLE. *)
Theorem prediction_step_raises (env : Env)
    (create_client : string -> string -> result unit)
    (OpenAI : string -> result unit)
    (pipeline : string -> string -> gmap string Py.value + string)
    (agent_address question : string) :
  (forall e,
     async_act env create_client OpenAI pipeline agent_address question = Raise e
     <-> SupafundPredictor_init env create_client OpenAI = Raise e
         \/ (SupafundPredictor_init env create_client OpenAI = Ok tt /\
             ((e = ValueError /\ search question = None)
              \/ (e = TypeError /\
                  exists application_id res v,
                    search question = Some application_id /\
                    pipeline application_id question = inl res /\
                    res !! "prediction" = Some (VStr "Yes") /\
                    res !! "confidence" = Some v /\ number v = None)))) /\
  (forall e,
     SupafundPredictor_init env create_client OpenAI = Raise e
     <-> (e = ValueError /\
          (falsy (NEXT_PUBLIC_SUPABASE_URL env) = true
           \/ falsy (SUPABASE_SERVICE_ROLE_KEY env) = true))
         \/ exists url key,
              NEXT_PUBLIC_SUPABASE_URL env = Some url /\ url <> EmptyString /\
              SUPABASE_SERVICE_ROLE_KEY env = Some key /\ key <> EmptyString /\
              (create_client url key = Raise e
               \/ (create_client url key = Ok tt /\
                   ((e = ValueError /\ falsy (OPENAI_API_KEY env) = true)
                    \/ exists api_key,
                         OPENAI_API_KEY env = Some api_key /\
                         api_key <> EmptyString /\ OpenAI api_key = Raise e)))) /\
  (forall payload,
     async_act env create_client OpenAI pipeline agent_address question
       = Ok payload ->
     payload = payload_for agent_address DONE
     \/ payload = payload_for agent_address UNPROFITABLE).
Proof.
  split; [| split; [intros e; apply SupafundPredictor_init_Raise |]];
    rewrite async_act_cases;
    destruct (SupafundPredictor_init env create_client OpenAI) as [[] | e0].
  - intros e.
    destruct (search question) as [app |] eqn:Hs.
    2:{ split.
        - intros [= <-]. right. auto.
        - intros [H | [_ [[-> _] | [_ (a & r & v & H & _)]]]];
            [discriminate H | reflexivity | discriminate H]. }
    destruct (pipeline app question) as [res | err] eqn:Hp.
    2:{ split; [discriminate |].
        intros [H | [_ [[_ H] | [_ (a & r & v & [= <-] & Hr & _)]]]];
          [discriminate H | discriminate H |].
        rewrite Hp in Hr. discriminate Hr. }
    case_decide as Hyes.
    2:{ split; [discriminate |].
        intros [H | [_ [[_ H] | [_ (a & r & v & [= <-] & Hr & Hy & _)]]]];
          [discriminate H | discriminate H |].
        rewrite Hp in Hr. injection Hr as <-. contradiction. }
    destruct (number (confidence_of res)) as [c |] eqn:Hn.
    + split; [discriminate |].
      intros [H | [_ [[_ H] | [_ (a & r & v & [= <-] & Hr & _ & Hc & Hv)]]]];
        [discriminate H | discriminate H |].
      rewrite Hp in Hr. injection Hr as <-.
      unfold confidence_of in Hn. rewrite Hc in Hn. cbn in Hn. congruence.
    + split.
      * intros [= <-]. right. split; [reflexivity |]. right.
        split; [reflexivity |].
        unfold confidence_of in Hn.
        destruct (res !! "confidence") as [v |] eqn:Hc; cbn in Hn;
          [| discriminate Hn].
        exists app, res, v. auto.
      * intros [H | [_ [[_ H] | [-> _]]]];
          [discriminate H | discriminate H | reflexivity].
  - intros e. split.
    + intros [= <-]. now left.
    + intros [[= <-] | [H _]]; [reflexivity | discriminate H].
  - intros payload.
    destruct (search question) as [app |]; [| discriminate].
    destruct (pipeline app question) as [res | err]; [| intros [= <-]; now right].
    case_decide; [| intros [= <-]; now right].
    destruct (number (confidence_of res)) as [c |]; [| discriminate].
    intros [= <-]. case_bool_decide; auto.
  - discriminate.
Qed.

Lemma prediction_step_raises_witness :
  async_act example_env accepting_create_client accepting_OpenAI
    (fun _ _ => inl vague_yes) "agent_0" question_with_id
  = Raise TypeError /\
  async_act example_env rejecting_create_client accepting_OpenAI
    (fun _ _ => inl confident_yes) "agent_0" question_with_id
  = Raise (LibraryError "SupabaseException").
Proof.
  split.
  - destruct (prediction_step_raises example_env accepting_create_client
                accepting_OpenAI (fun _ _ => inl vague_yes)
                "agent_0" question_with_id) as [Hraise _].
    apply Hraise. right. split; [reflexivity |]. right. split; [reflexivity |].
    exists "app-42", vague_yes, (VStr "high"). repeat split.
  - destruct (prediction_step_raises example_env rejecting_create_client
                accepting_OpenAI (fun _ _ => inl confident_yes)
                "agent_0" question_with_id) as [Hraise [Hinit _]].
    apply Hraise. left. apply Hinit. right.
    exists "https://db.example", "service-key".
    repeat (split; [reflexivity || discriminate |]). now left.
Defined.

End PredictionMoreFacts.
